(** * GoFesl theater manager: a shallow embedding of [theaterManager.go]
      and [fesl/getStats.client.go], and the properties of its handlers. *)

From Stdlib Require Import ZArith Lia Ascii String DecimalN.
From stdpp Require Import base gmap list strings.
Open Scope string_scope.

(** ** Go values *)

(** A Go [map[string]string] (command messages, answer packets, Redis
    hashes). Reading an absent key yields [""]. *)
Abbreviation packet := (gmap string string).

Definition mget (m : packet) (k : string) : string := default "" (m !! k).

(** Go [int] is 64 bits: [x++] wraps around. *)
Definition int_min : Z := - 2 ^ 63.
Definition int_max : Z := 2 ^ 63 - 1.
Definition wrap64 (z : Z) : Z := (z + 2 ^ 63) mod 2 ^ 64 - 2 ^ 63.

(** Decimal digits of a [Decimal.uint], most significant first. *)
Fixpoint str_of_uint (d : Decimal.uint) : string :=
  match d with
  | Decimal.Nil => ""
  | Decimal.D0 d => String "0"%char (str_of_uint d)
  | Decimal.D1 d => String "1"%char (str_of_uint d)
  | Decimal.D2 d => String "2"%char (str_of_uint d)
  | Decimal.D3 d => String "3"%char (str_of_uint d)
  | Decimal.D4 d => String "4"%char (str_of_uint d)
  | Decimal.D5 d => String "5"%char (str_of_uint d)
  | Decimal.D6 d => String "6"%char (str_of_uint d)
  | Decimal.D7 d => String "7"%char (str_of_uint d)
  | Decimal.D8 d => String "8"%char (str_of_uint d)
  | Decimal.D9 d => String "9"%char (str_of_uint d)
  end.

Fixpoint uint_of_str (s : string) : option Decimal.uint :=
  match s with
  | EmptyString => Some Decimal.Nil
  | String c r =>
      match uint_of_str r with
      | None => None
      | Some d =>
          if decide (c = "0"%char) then Some (Decimal.D0 d)
          else if decide (c = "1"%char) then Some (Decimal.D1 d)
          else if decide (c = "2"%char) then Some (Decimal.D2 d)
          else if decide (c = "3"%char) then Some (Decimal.D3 d)
          else if decide (c = "4"%char) then Some (Decimal.D4 d)
          else if decide (c = "5"%char) then Some (Decimal.D5 d)
          else if decide (c = "6"%char) then Some (Decimal.D6 d)
          else if decide (c = "7"%char) then Some (Decimal.D7 d)
          else if decide (c = "8"%char) then Some (Decimal.D8 d)
          else if decide (c = "9"%char) then Some (Decimal.D9 d)
          else None
      end
  end.

(** [strconv.Itoa]. *)
Definition Itoa (z : Z) : string :=
  if decide (z < 0)%Z then String "-"%char (str_of_uint (N.to_uint (Z.to_N (- z))))
  else str_of_uint (N.to_uint (Z.to_N z)).

(** [strconv.Atoi] with its error ignored, as the callers do: a syntax
    error gives 0, an out-of-range value is clamped to the [int] range. *)
Definition clamp64 (z : Z) : Z := Z.max int_min (Z.min int_max z).

Definition atoi_digits (neg : bool) (s : string) : Z :=
  match uint_of_str s with
  | Some d => if neg then clamp64 (- Z.of_N (N.of_uint d))
              else clamp64 (Z.of_N (N.of_uint d))
  | None => 0
  end.

Definition Atoi (s : string) : Z :=
  match s with
  | String "-"%char r => atoi_digits true r
  | String "+"%char r => atoi_digits false r
  | _ => atoi_digits false s
  end.

(** ** Shared key-value store (Redis) *)

(** [core.RedisState] over namespace [ns]: a Redis hash per namespace;
    [Set] writes one field, [Get] reads one field ([""] when absent). *)
Abbreviation store := (gmap string packet).

Definition rs_get (ns k : string) (st : store) : string :=
  mget (default ∅ (st !! ns)) k.

Definition rs_set (ns k v : string) (st : store) : store :=
  <[ns := <[k := v]> (default ∅ (st !! ns))]> st.

(** The whole hash of namespace [ns]. *)
Definition record_of (ns : string) (st : store) : packet := default ∅ (st !! ns).

(** The loop [for index, value := range m { f(index, value) }]: Go's map
    iteration visits each key once, in some order. *)
Definition range_set (ns : string) (f : string -> string) (m : packet)
    (st : store) : store :=
  foldl (fun st' kv => rs_set ns kv.1 (f kv.2) st') st (map_to_list m).

(** The double-quote character. *)
Definition dquote : Ascii.ascii := Ascii.ascii_of_nat 34.

(** Strip one leading and one trailing double quote:
    [if len(value) > 0 && value[0] == dquote { value = value[1:] }] and
    [if len(value) > 0 && value[len(value)-1] == dquote { value = value[:len(value)-1] }]. *)
Definition strip_quotes (value : string) : string :=
  let value := match value with
               | String c r => if decide (c = dquote) then r else value
               | EmptyString => value
               end in
  match String.get (String.length value - 1) value with
  | Some c =>
      if decide (c = dquote) then String.substring 0 (String.length value - 1) value
      else value
  | None => value
  end.

(** Build an answer packet by successive assignments [p[k] = v]. *)
Definition pkt (l : list (string * string)) : packet :=
  foldl (fun m kv => <[kv.1 := kv.2]> m) ∅ l.

(** ** Sessions, process globals and the world *)

(** [gs.Client] as the handlers use it. [IpAddr] is [Some ip] when the
    connection address is a [*net.TCPAddr] with that IP; [uID] is the
    field of the client's own Redis state read by [GetStats]. *)
Record Client := mkClient {
  IsActive : bool;
  IsServer : bool;
  IpAddr : option string;
  uID : string
}.

Definition set_server (c : Client) : Client :=
  mkClient (IsActive c) true (IpAddr c) (uID c).

(** The package-level variables [wantsToJoin] ... [pid]. *)
Record Globals := mkGlobals {
  wantsToJoin : bool;
  canJoin : bool;
  wantsToLeaveQueue : bool;
  localPort : string;
  remotePort : string;
  localIP : string;
  remoteIP : string;
  userId : string;
  nickname : string;
  pid : string
}.

(** Their initial values. *)
Definition globals0 : Globals :=
  mkGlobals false false false "" "" "" "" "" "" "".

(** One write statement executed on the relational database ([Exec]):
    its name, its arguments and whether it succeeded. Queries
    ([QueryRow], [Query]) read the database; their results come from the
    oracle and are not recorded. *)
Record Exec := mkExec { ex_stmt : string; ex_args : list string; ex_ok : bool }.

Record World := mkWorld {
  globals : Globals;
  redis : store;
  durable : list Exec
}.

Definition set_globals (w : World) (g : Globals) : World :=
  mkWorld g (redis w) (durable w).
Definition set_redis (w : World) (st : store) : World :=
  mkWorld (globals w) st (durable w).

(** What the environment answers: the database, the clock and the
    stats-statement [Shard] argument. [o_exec n] is the error of the
    [n]-th [Exec] of the handler ([None]: success). [o_stats] is [None]
    when the stats query fails, otherwise its rows
    (userID, heroID, key, value). *)
Record Oracle := mkOracle {
  o_prepare_ok : bool;
  o_lookup : string -> option (string * string);
  o_exec : nat -> option string;
  o_stats : option (list (string * string * string * string));
  o_now : Z;
  o_shard : string
}.

(** A handler either returns, or panics (an unrecovered panic in its
    goroutine); both carry the state reached and the packets written to
    the client, in order. *)
Inductive outcome :=
| Done (w : World) (c : Client) (out : list (string * packet))
| Panic (w : World) (c : Client) (out : list (string * packet)).

Definition sent_of (r : outcome) : list (string * packet) :=
  match r with Done _ _ out | Panic _ _ out => out end.
Definition world_of (r : outcome) : World :=
  match r with Done w _ _ | Panic w _ _ => w end.
Definition client_of (r : outcome) : Client :=
  match r with Done _ c _ | Panic _ c _ => c end.

(** ** Handlers of theaterManager.go *)

(** [TheaterManager.New]: [gameServerGlobal.Set("Lobbies", "0")]. *)
Definition lobbies_ns : string := "gameServer-config".
Definition theater_new (st : store) : store := rs_set lobbies_ns "Lobbies" "0" st.

Definition game_ns (lid : string) : string := "gameServer-" ++ lid.

(** CGAM, first part: read the counter and increment it. *)
Definition cgam_next_lid (st : store) : Z :=
  wrap64 (Atoi (rs_get lobbies_ns "Lobbies" st) + 1).

(** CGAM, second part: write the record [gameServer-<gameLid>]. *)
Definition cgam_write (gameLid : Z) (ip : string) (msg : packet) (st : store) : store :=
  let ns := game_ns (Itoa gameLid) in
  let st := range_set ns strip_quotes msg st in
  let st := rs_set ns "LID" (Itoa gameLid) st in
  let st := rs_set ns "IP" ip st in
  let st := rs_set ns "ACTIVE-PLAYERS" "0" st in
  rs_set ns "QUEUE-LENGTH" "0" st.

(** CGAM, last part: [gameServerGlobal.Set("Lobbies", strconv.Itoa(gameLid))]. *)
Definition cgam_commit (gameLid : Z) (st : store) : store :=
  rs_set lobbies_ns "Lobbies" (Itoa gameLid) st.

Definition cgam_answer (msg : packet) : packet :=
  pkt [("TID", mget msg "TID"); ("MAX-PLAYERS", "16");
       ("EKEY", "O65zZ2D2A58mNrZw1hmuJw%3d%3d");
       ("UGID", "7eb6155c-ac70-4567-9fc4-732d56a9334a");
       ("JOIN", mget msg "JOIN"); ("LID", "1"); ("SECRET", "2587913");
       ("J", "0"); ("GID", "5459")].

(** The store effect of one CGAM, run without interference: the new
    store and the lobby id it assigned. *)
Definition cgam_call (ip : string) (msg : packet) (st : store) : store * Z :=
  let gameLid := cgam_next_lid st in
  (cgam_commit gameLid (cgam_write gameLid ip msg st), gameLid).

Definition CGAM (c : Client) (msg : packet) (w : World) : outcome :=
  if negb (IsActive c) then Done w c [] else
  match IpAddr c with
  | None => Done w c []
  | Some ip =>
      let '(st, gameLid) := cgam_call ip msg (redis w) in
      Done (set_redis w st) c [("CGAM", cgam_answer msg)]
  end.

(** ECNL: the answer packet; [wantsToLeaveQueue = true] is commented out
    in the source. *)
Definition ECNL (c : Client) (msg : packet) (w : World) : outcome :=
  if negb (IsActive c) then Done w c [] else
  Done w c [("ECNL", pkt [("TID", mget msg "TID"); ("GID", "5459");
                          ("LID", mget msg "LID")])].

(** EGAM. The identity query ([Prepare], then [QueryRow]) only reads the
    database; its row comes from [o_lookup]. The join addressing and [userId] are stored before the
    identity query is prepared. When [Prepare] fails the handler returns
    and its deferred [stmt.Close()] runs on the nil statement, which
    panics; no answer is written. The error of [QueryRow(..).Scan] is not
    checked: on no row, [pid] and [nickname] keep their values. *)
Definition EGAM (o : Oracle) (c : Client) (msg : packet) (w : World) : outcome :=
  if negb (IsActive c) then Done w c [] else
  let answerPacket := pkt [("TID", mget msg "TID"); ("GID", "5459"); ("LID", "1")] in
  let g := globals w in
  let g := mkGlobals (wantsToJoin g) (canJoin g) (wantsToLeaveQueue g)
             (mget msg "R-INT-PORT") (mget msg "PORT") (mget msg "R-INT-IP")
             (mget msg "R-U-externalIp") (mget msg "R-U-accid")
             (nickname g) (pid g) in
  if negb (o_prepare_ok o) then Panic (set_globals w g) c [] else
  let g := match o_lookup o (mget msg "R-U-accid") with
           | Some (p, n) =>
               mkGlobals (wantsToJoin g) (canJoin g) (wantsToLeaveQueue g)
                 (localPort g) (remotePort g) (localIP g) (remoteIP g)
                 (userId g) n p
           | None => g
           end in
  let g := mkGlobals true false (wantsToLeaveQueue g)
             (localPort g) (remotePort g) (localIP g) (remoteIP g)
             (userId g) (nickname g) (pid g) in
  Done (set_globals w g) c [("EGAM", answerPacket)].

(** GLST only logs. *)
Definition GLST (c : Client) (msg : packet) (w : World) : outcome :=
  if negb (IsActive c) then Done w c [] else Done w c [].

(** GDAT opens [gameServer-<LID>] but answers with fixed values; only
    [TID] comes from the request. *)
Definition gdat_answer (msg : packet) : packet :=
  pkt [("TYPE", "G"); ("AP", "15"); ("B-U-server_port", "18569"); ("PW", "0");
       ("B-U-avg_axis_rank", "800.800000"); ("P", "18569"); ("V", "1.02.1067.0");
       ("B-U-army_balance", "Balanced"); ("B-U-avail_slots_royal", "yes");
       ("B-U-avail_slots_national", "yes"); ("I", "45.77.79.240");
       ("B-U-data_center", "iad"); ("HU", "1");
       ("B-U-army_distribution", "0,0,0,0,0,0,0,0,0,0,0"); ("F", "1");
       ("B-maxObservers", "0");
       ("N", "[iad]gs1-test.revive.systems(45.77.79.240%3a18569)"); ("NF", "0");
       ("B-version", "1.02.1067.0"); ("B-U-server_ip", "45.77.79.240");
       ("B-U-community_name", "HeroesSV"); ("B-U-percent_full", "0"); ("MP", "16");
       ("B-U-ranked", "yes"); ("B-U-easyzone", "no"); ("JP", "0"); ("QP", "0");
       ("HN", "gs1-test.revive.systems"); ("GID", "5459"); ("B-U-elo_rank", "800.800000");
       ("PL", "PC"); ("B-U-server_state", "empty"); ("TID", mget msg "TID");
       ("B-numObservers", "0"); ("J", "O"); ("B-U-map", "no_vehicles"); ("LID", "1");
       ("B-U-avg_ally_rank", "800.800000")].

Definition GDAT (c : Client) (msg : packet) (w : World) : outcome :=
  if negb (IsActive c) then Done w c [] else
  Done w c [("GDAT", gdat_answer msg)].

Definition LLST (c : Client) (msg : packet) (w : World) : outcome :=
  if negb (IsActive c) then Done w c [] else
  Done w c [("LLST", pkt [("TID", mget msg "TID"); ("NUM-LOBBIES", "1")]);
            ("LDAT", pkt [("TID", "6"); ("FAVORITE-GAMES", "0");
                          ("FAVORITE-PLAYERS", "0"); ("LID", "1"); ("LOCALE", "en_US");
                          ("MAX-GAMES", "10000"); ("NAME", "bfwestPC02");
                          ("NUM-GAMES", "1"); ("PASSING", "0")])].

Definition user_answer (g : Globals) (msg : packet) : packet :=
  pkt [("TID", mget msg "TID"); ("NAME", nickname g); ("CID", userId g)].

Definition USER (c : Client) (msg : packet) (w : World) : outcome :=
  if negb (IsActive c) then Done w c [] else
  Done w c [("USER", user_answer (globals w) msg)].

Definition UBRA (c : Client) (msg : packet) (w : World) : outcome :=
  if negb (IsActive c) then Done w c [] else
  Done w c [("UBRA", pkt [("TID", mget msg "TID")])].

(** UGAM (first draft): marks the session as a server and copies every
    field of the message, as is, into [gameServer-<LID>]. *)
Definition UGAM (c : Client) (msg : packet) (w : World) : outcome :=
  if negb (IsActive c) then Done w c [] else
  Done (set_redis w (range_set (game_ns (mget msg "LID")) id msg (redis w)))
       (set_server c) [].

Definition CONN (o : Oracle) (c : Client) (msg : packet) (w : World) : outcome :=
  if negb (IsActive c) then Done w c [] else
  Done w c [("CONN", pkt [("TID", mget msg "TID"); ("TIME", Itoa (o_now o));
                          ("activityTimeoutSecs", "30"); ("PROT", mget msg "PROT")])].

Definition EGRS (c : Client) (msg : packet) (w : World) : outcome :=
  if negb (IsActive c) then Done w c [] else
  Done w c [("EGRS", pkt [("TID", mget msg "TID")])].

Definition PENT (c : Client) (msg : packet) (w : World) : outcome :=
  if negb (IsActive c) then Done w c [] else
  Done w c [("PENT", pkt [("TID", mget msg "TID"); ("PID", mget msg "PID")])].

Definition UPLA (c : Client) (msg : packet) (w : World) : outcome :=
  if negb (IsActive c) then Done w c [] else
  Done w c [("UPLA", pkt [("TID", mget msg "TID"); ("PID", mget msg "PID");
                          ("P-cid", mget msg "P-cid")])].

(** ** The second draft of UGAM (package [theater], lines 695-755) *)

(** [lib.RedisObject] over ("gdata", gameID). *)
Definition gdata_ns (gameID : string) : string := "gdata:" ++ gameID.

Definition deadlock_msg : string :=
  "Error 1213: Deadlock found when trying to get lock; try restarting transaction".

Definition add_exec (w : World) (name : string) (args : list string)
    (err : option string) : World :=
  mkWorld (globals w) (redis w)
    (durable w ++ [mkExec name args (bool_decide (err = None))]).

(** The loop of the second draft: skip [TID], count the keys, strip the
    quotes, [gdata.Set] the field and append (gameID, index, value) to
    the statement arguments. *)
Fixpoint ugam2_loop (gameID : string) (kvs : list (string * string))
    (st : store) (keys : nat) (args : list string) : store * nat * list string :=
  match kvs with
  | [] => (st, keys, args)
  | (index, value) :: rest =>
      if decide (index = "TID") then ugam2_loop gameID rest st keys args
      else
        let value := strip_quotes value in
        ugam2_loop gameID rest (rs_set (gdata_ns gameID) index value st)
          (S keys) (args ++ [gameID; index; value])
  end.

Definition stats_stmt (keys : nat) : string :=
  "setServerStatsStatement(" ++ Itoa (Z.of_nat keys) ++ ")".

(** [stmtUpdateGame.Exec] is the 0th statement; an error there reaches
    [log.Panicln]. The stats statement is the 1st; it is executed a second
    time only when its error text is exactly [deadlock_msg]. *)
Definition UGAM2 (o : Oracle) (c : Client) (msg : packet) (w : World) : outcome :=
  if negb (IsActive c) then Done w c [] else
  let gameID := mget msg "GID" in
  let '(st, keys, args) := ugam2_loop gameID (map_to_list msg) (redis w) 0 [] in
  let w := set_redis w st in
  let e0 := o_exec o 0 in
  let w := add_exec w "stmtUpdateGame" [mget msg "GID"; o_shard o] e0 in
  match e0 with
  | Some _ => Panic w c []
  | None =>
      let e1 := o_exec o 1 in
      let w := add_exec w (stats_stmt keys) args e1 in
      match e1 with
      | None => Done w c []
      | Some err =>
          if decide (err = deadlock_msg) then
            Done (add_exec w (stats_stmt keys) args (o_exec o 2)) c []
          else Done w c []
      end
  end.

(** ** fesl/getStats.client.go *)

(** GetStats. A failed query leaves [rows] nil and [rows.Next()]
    panics. [query] is the request's [Command.Query]. *)
Definition stats_rows (p : packet) (rows : list (string * string * string * string))
    : packet * Z :=
  foldl (fun '(p, count) row =>
           let '(_, _, statsKey, statsValue) := row in
           let i := Itoa count in
           (<["stats." ++ i ++ ".text" := statsValue]>
              (<["stats." ++ i ++ ".value" := statsValue]>
                 (<["stats." ++ i ++ ".key" := statsKey]> p)), (count + 1)%Z))
        (p, 0%Z) rows.

Definition GetStats (o : Oracle) (query : string) (c : Client) (msg : packet)
    (w : World) : outcome :=
  if negb (IsActive c) then Done w c [] else
  let owner := mget msg "owner" in
  let loginPacket := pkt [("TXN", "GetStats"); ("ownerId", owner); ("ownerType", "1")] in
  match o_stats o with
  | None => Panic w c []
  | Some rows =>
      let '(p, count) := stats_rows loginPacket rows in
      Done w c [(query, <["stats.[]" := Itoa count]> p)]
  end.

(** ** Dispatch *)

(** The commands routed to a handler by [run] (theater), the second
    draft of UGAM, and the FESL stats command. *)
Inductive Command :=
| cCONN | cUSER | cLLST | cGDAT | cEGAM | cECNL | cCGAM | cUBRA | cUGAM
| cEGRS | cGLST | cPENT | cUPLA | cUGAM2 | cGetStats (query : string).

Definition handle (cmd : Command) (o : Oracle) (c : Client) (msg : packet)
    (w : World) : outcome :=
  match cmd with
  | cCONN => CONN o c msg w
  | cUSER => USER c msg w
  | cLLST => LLST c msg w
  | cGDAT => GDAT c msg w
  | cEGAM => EGAM o c msg w
  | cECNL => ECNL c msg w
  | cCGAM => CGAM c msg w
  | cUBRA => UBRA c msg w
  | cUGAM => UGAM c msg w
  | cEGRS => EGRS c msg w
  | cGLST => GLST c msg w
  | cPENT => PENT c msg w
  | cUPLA => UPLA c msg w
  | cUGAM2 => UGAM2 o c msg w
  | cGetStats q => GetStats o q c msg w
  end.

(** ** The two session timers started by [newClient] *)

Definition set_flags (g : Globals) (wj cj wl : bool) : Globals :=
  mkGlobals wj cj wl (localPort g) (remotePort g) (localIP g) (remoteIP g)
    (userId g) (nickname g) (pid g).

Definition egeg_packet (g : Globals) : packet :=
  pkt [("PL", "pc"); ("TICKET", "2018751182"); ("PID", pid g); ("I", "45.77.79.240");
       ("P", "18569"); ("HUID", "1"); ("EKEY", "O65zZ2D2A58mNrZw1hmuJw%3d%3d");
       ("INT-IP", "45.77.79.240"); ("INT-PORT", "18569"); ("SECRET", "2587913");
       ("UGID", "7eb6155c-ac70-4567-9fc4-732d56a9334a"); ("LID", "1"); ("GID", "5459")].

Definition egrq_packet (g : Globals) : packet :=
  pkt [("TID", "6"); ("NAME", nickname g); ("UID", userId g); ("PID", pid g);
       ("TICKET", "2018751182"); ("IP", remoteIP g); ("PORT", remotePort g);
       ("INT-IP", localIP g); ("INT-PORT", localPort g); ("PTYPE", "P");
       ("R-cid", userId g); ("cid", userId g); ("R-USER", nickname g);
       ("R-UID", userId g); ("XUID", userId g); ("R-XUID", userId g);
       ("R-U-accid", userId g); ("R-U-elo", "1"); ("R-U-team", "1"); ("R-U-kit", "2");
       ("R-U-lvl", "1"); ("R-U-dataCenter", "iad"); ("R-U-externalIp", remoteIP g);
       ("R-U-internalIp", remotePort g); ("R-U-category", "5"); ("R-U-cid", userId g);
       ("R-INT-PORT", localPort g); ("R-INT-IP", localIP g); ("LID", "1"); ("GID", "5459")].

(** One tick of the [JoinTicker] loop of a session. An inactive session's
    loop has returned; [IsActive] never becomes true again, so testing it
    at every tick is the same. The QLVT packet is only logged. The tick
    runs as one step: this is a tick that no other session's tick
    overlaps ([poll_sched] below splits a server tick into its accesses to
    the process-wide variables). *)
Definition join_tick (c : Client) (g : Globals) : Globals * list (string * packet) :=
  if negb (IsActive c) then (g, []) else
  if negb (IsServer c) then
    if canJoin g then (set_flags g (wantsToJoin g) false (wantsToLeaveQueue g),
                       [("EGEG", egeg_packet g)])
    else (g, [])
  else
    let '(g, out) :=
      if wantsToJoin g then
        let g := set_flags g false (canJoin g) (wantsToLeaveQueue g) in
        let p := egrq_packet g in
        (set_flags g (wantsToJoin g) true (wantsToLeaveQueue g), [("EGRQ", p)])
      else (g, []) in
    let g := if wantsToLeaveQueue g then set_flags g (wantsToJoin g) (canJoin g) false
             else g in
    (g, out).

(** One tick of the [HeartTicker] loop (period: 10 seconds). *)
Definition heartbeat_period_s : Z := 10.

Definition heart_tick (c : Client) : list (string * packet) :=
  if negb (IsActive c) then [] else [("PING", pkt [("TID", "0")])].

(** ** All sessions of one theater *)

(** The commands [TheaterManager.run] routes: not the FESL [GetStats],
    nor the second UGAM draft, which belongs to another package. *)
Definition theater_cmd (cmd : Command) : bool :=
  match cmd with cUGAM2 | cGetStats _ => false | _ => true end.

Record Sys := mkSys {
  sys_world : World;
  sys_clients : gmap nat Client;
  sys_timers : gset nat;
  sys_out : list (nat * (string * packet))
}.

Inductive Event :=
| EvConnect (s : nat) (c : Client)
| EvCmd (s : nat) (cmd : Command) (o : Oracle) (msg : packet)
| EvHeartTick (s : nat)
| EvJoinTick (s : nat)
| EvClose (s : nat).

Definition tag (s : nat) (out : list (string * packet)) : list (nat * (string * packet)) :=
  map (fun m => (s, m)) out.

Definition deactivate (c : Client) : Client := mkClient false (IsServer c) (IpAddr c) (uID c).

(** [None] when a handler panicked (the process stops). [newClient]
    starts the timers only for an active connection; the model registers
    the session and starts both timers in one step, although [run] starts
    [newClient] in its own goroutine. *)
Definition sys_step (S : Sys) (e : Event) : option Sys :=
  match e with
  | EvConnect s c =>
      Some (mkSys (sys_world S) (<[s := c]> (sys_clients S))
              (if IsActive c then {[s]} ∪ sys_timers S else sys_timers S) (sys_out S))
  | EvCmd s cmd o msg =>
      if negb (theater_cmd cmd) then Some S else
      match sys_clients S !! s with
      | None => Some S
      | Some c =>
          match handle cmd o c msg (sys_world S) with
          | Done w c' out =>
              Some (mkSys w (<[s := c']> (sys_clients S)) (sys_timers S)
                      (sys_out S ++ tag s out))
          | Panic _ _ _ => None
          end
      end
  | EvHeartTick s =>
      match sys_clients S !! s with
      | Some c =>
          if decide (s ∈ sys_timers S) then
            Some (mkSys (sys_world S) (sys_clients S) (sys_timers S)
                    (sys_out S ++ tag s (heart_tick c)))
          else Some S
      | None => Some S
      end
  | EvJoinTick s =>
      match sys_clients S !! s with
      | Some c =>
          if decide (s ∈ sys_timers S) then
            let '(g, out) := join_tick c (globals (sys_world S)) in
            Some (mkSys (set_globals (sys_world S) g) (sys_clients S) (sys_timers S)
                    (sys_out S ++ tag s out))
          else Some S
      | None => Some S
      end
  | EvClose s =>
      match sys_clients S !! s with
      | Some c => Some (mkSys (sys_world S) (<[s := deactivate c]> (sys_clients S))
                          (sys_timers S) (sys_out S))
      | None => Some S
      end
  end.

Fixpoint sys_run (S : Sys) (tr : list Event) : option Sys :=
  match tr with
  | [] => Some S
  | e :: tr => match sys_step S e with Some S' => sys_run S' tr | None => None end
  end.

(** A freshly started theater: [TheaterManager.New] on an empty store. *)
Definition sys0 : Sys :=
  mkSys (mkWorld globals0 (theater_new ∅) []) ∅ ∅ [].

(** ** Overlapping server ticks

    The server branch of a [JoinTicker] tick, as its goroutine runs it:
    the test of [wantsToJoin]; then the block that clears it, sends EGRQ
    and sets [canJoin]; then the leave-queue block. Each step is one
    access to the process-wide variables, which no lock protects, so the
    ticks of several server sessions can interleave. *)
Inductive poll_pc := PStart | PJoin | PLeave | PDone.

Definition server_poll_step (pc : poll_pc) (g : Globals)
    : poll_pc * Globals * list (string * packet) :=
  match pc with
  | PStart => (if wantsToJoin g then PJoin else PLeave, g, [])
  | PJoin =>
      let g := set_flags g false (canJoin g) (wantsToLeaveQueue g) in
      (PLeave, set_flags g (wantsToJoin g) true (wantsToLeaveQueue g),
       [("EGRQ", egrq_packet g)])
  | PLeave =>
      (PDone, if wantsToLeaveQueue g then set_flags g (wantsToJoin g) (canJoin g) false
              else g, [])
  | PDone => (PDone, g, [])
  end.

(** Run a schedule over server ticks (session, program point): the tick
    to step next; returns the ticks, the globals and the packets sent. *)
Fixpoint poll_sched (ts : list (nat * poll_pc)) (sched : list nat) (g : Globals)
    : list (nat * poll_pc) * Globals * list (nat * (string * packet)) :=
  match sched with
  | [] => (ts, g, [])
  | i :: sched =>
      match ts !! i with
      | None => poll_sched ts sched g
      | Some (s, pc) =>
          let '(pc', g', out) := server_poll_step pc g in
          let '(ts'', g'', out') := poll_sched (<[i := (s, pc')]> ts) sched g' in
          (ts'', g'', (tag s out ++ out')%list)
      end
  end.

(** ** Concurrent CGAM calls

    [run] starts every handler in its own goroutine, and CGAM reads the
    counter ([Get]) and writes it back ([Set]) in separate store
    operations. A CGAM goroutine is modelled by two atomic steps: the read
    of the counter, then the writes of the record and of the counter. *)
Inductive cgam_pc := CStart | CRead (gameLid : Z) | CDone.

Record CThread := mkCThread { ct_ip : string; ct_msg : packet; ct_pc : cgam_pc }.

(** One step of a goroutine; the id it assigns, at its read. *)
Definition cgam_thread_step (t : CThread) (st : store) : CThread * store * option Z :=
  match ct_pc t with
  | CStart =>
      let gameLid := cgam_next_lid st in
      (mkCThread (ct_ip t) (ct_msg t) (CRead gameLid), st, Some gameLid)
  | CRead gameLid =>
      (mkCThread (ct_ip t) (ct_msg t) CDone,
       cgam_commit gameLid (cgam_write gameLid (ct_ip t) (ct_msg t) st), None)
  | CDone => (t, st, None)
  end.

(** Run a schedule (the goroutine to step next); returns the threads,
    the store and the ids assigned, in order. *)
Fixpoint cgam_sched (ts : list CThread) (sched : list nat) (st : store)
    : list CThread * store * list Z :=
  match sched with
  | [] => (ts, st, [])
  | i :: sched =>
      match ts !! i with
      | None => cgam_sched ts sched st
      | Some t =>
          let '(t', st', oid) := cgam_thread_step t st in
          let '(ts'', st'', ids) := cgam_sched (<[i := t']> ts) sched st' in
          (ts'', st'', (option_list oid ++ ids)%list)
      end
  end.

(** Calls one after the other: each call's id and the store after it. *)
Fixpoint cgam_seq (calls : list (string * packet)) (st : store) : list (Z * store) :=
  match calls with
  | [] => []
  | (ip, msg) :: calls =>
      let '(st', gameLid) := cgam_call ip msg st in
      (gameLid, st') :: cgam_seq calls st'
  end.

(** ** Concurrent UGAM calls

    Each [gameServer.Set] of the UGAM loop is one store operation; two
    UGAM goroutines run their sequences of [Set]s interleaved. The loop
    ranges over a Go map, so each sequence is the message's entries in an
    unspecified order: any permutation of [map_to_list msg]. *)
Inductive interleaving {A} : list A → list A → list A → Prop :=
| il_nil : interleaving [] [] []
| il_left x l1 l2 l : interleaving l1 l2 l → interleaving (x :: l1) l2 (x :: l)
| il_right x l1 l2 l : interleaving l1 l2 l → interleaving l1 (x :: l2) (x :: l).

Definition apply_sets (ns : string) (l : list (string * string)) (st : store) : store :=
  foldl (fun st' kv => rs_set ns kv.1 kv.2 st') st l.

(** ** Events of a trace *)

Definition is_egam (e : Event) : bool :=
  match e with EvCmd _ cEGAM _ _ => true | _ => false end.

Definition is_join_tick (e : Event) : bool :=
  match e with EvJoinTick _ => true | _ => false end.

Definition ping_msg : string * packet := ("PING", pkt [("TID", "0")]).

(** Heartbeat ticks of session [s] before its first close. *)
Fixpoint ticks_before_close (s : nat) (tr : list Event) : nat :=
  match tr with
  | [] => 0
  | EvClose s' :: tr => if decide (s = s') then 0 else ticks_before_close s tr
  | EvHeartTick s' :: tr => (if decide (s = s') then 1 else 0) + ticks_before_close s tr
  | _ :: tr => ticks_before_close s tr
  end.

(** The PING messages sent on session [s] among the messages [out]. *)
Definition pings_to (s : nat) (out : list (nat * (string * packet))) :
    list (nat * (string * packet)) :=
  filter (fun m => m.1 = s ∧ m.2.1 = "PING") out.

(** The (account id, nickname) pair a join request leaves: an EGAM on an
    active session records its R-U-accid, and the nickname of the row its
    lookup finds, if any. *)
Definition join_identity_step (S : Sys) (e : Event) (id : string * string) : string * string :=
  match e with
  | EvCmd s cEGAM o msg =>
      match sys_clients S !! s with
      | Some c =>
          if IsActive c then
            (mget msg "R-U-accid",
             match o_lookup o (mget msg "R-U-accid") with
             | Some (_, n) => n
             | None => id.2
             end)
          else id
      | None => id
      end
  | _ => id
  end.

Fixpoint run_identity (S : Sys) (tr : list Event) (id : string * string) : string * string :=
  match tr with
  | [] => id
  | e :: tr =>
      match sys_step S e with
      | Some S' => run_identity S' tr (join_identity_step S e id)
      | None => id
      end
  end.

(** ** ECHO (UDP) *)

(** [ECHO] answers on the UDP socket whatever the session state: the
    request's [TID] and [TXN], the sender's address [ip] (the text of
    [event.Addr.IP.String()]) and port, and fixed [ERR] and [TYPE]. *)
Definition ECHO (msg : packet) (ip : string) (port : Z) : string * packet :=
  ("ECHO", pkt [("TID", mget msg "TID"); ("TXN", mget msg "TXN"); ("IP", ip);
                ("PORT", Itoa port); ("ERR", "0"); ("TYPE", "1")]).

(** ** Command and answer logs *)

(** The files written by the logging functions, by path. A file holds
    [json.MarshalIndent] of a [map[string]string], which never fails and
    is determined by the map; the map stands for its encoding. *)
Abbreviation files := (gmap string packet).

Definition log_dir (query txn : string) : string :=
  "./commands/" ++ query ++ "." ++ txn.

Definition log_path (query txn commandType : string) : string :=
  log_dir query txn ++ "/" ++ commandType.

(** [LogCommand] (and [LogCommandUDP], the same code over a
    [*gs.CommandFESL]): the error of [os.MkdirAll] is ignored; when
    [ioutil.WriteFile] fails ([write_ok = false]) the function panics. *)
Definition LogCommand (write_ok : bool) (query : string) (msg : packet) (fs : files)
    : option files :=
  if write_ok then Some (<[log_path query (mget msg "TXN") "request" := msg]> fs)
  else None.

Definition logAnswer (write_ok : bool) (msgType : string) (msgContent : packet)
    (fs : files) : option files :=
  if write_ok then Some (<[log_path msgType (mget msgContent "TXN") "answer" := msgContent]> fs)
  else None.


(** ** Arguments of the GetStats query *)

(** [args]: owner, the client's [uID], then [keys.0] ... [keys.(n-1)] for
    [n = strconv.Atoi(keys.[])] (error ignored); the loop
    [for i := 0; i < keys; i++] runs no time when [n <= 0]. *)
Definition GetStats_args (c : Client) (msg : packet) : list string :=
  let keys := Atoi (mget msg "keys.[]") in
  mget msg "owner" :: uID c ::
    map (fun i => mget msg ("keys." ++ Itoa (Z.of_nat i))) (seq 0 (Z.to_nat keys)).

(** * Properties *)

(** ** Store lemmas *)

Lemma rs_get_record ns k st : rs_get ns k st = mget (record_of ns st) k.
Proof. reflexivity. Qed.

Lemma record_of_rs_set ns k v st :
  record_of ns (rs_set ns k v st) = <[k := v]> (record_of ns st).
Proof. unfold record_of, rs_set. by rewrite lookup_insert_eq. Qed.

Lemma rs_set_other ns ns' k v st : ns' ≠ ns → rs_set ns k v st !! ns' = st !! ns'.
Proof. intros. unfold rs_set. by rewrite lookup_insert_ne. Qed.

Lemma foldl_set_lookup ns f (l : list (string * string)) st k :
  NoDup l.*1 →
  record_of ns (foldl (fun st' kv => rs_set ns kv.1 (f kv.2) st') st l) !! k =
  match (list_to_map l : packet) !! k with
  | Some v => Some (f v)
  | None => record_of ns st !! k
  end.
Proof.
  revert st. induction l as [|[k' v'] l IH]; intros st Hnd; cbn [foldl].
  - by rewrite list_to_map_nil, lookup_empty.
  - inversion Hnd as [|? ? Hnin Hnd']; subst. rewrite IH by done.
    rewrite record_of_rs_set, list_to_map_cons.
    destruct (decide (k = k')) as [->|Hne].
    + rewrite lookup_insert_eq, (not_elem_of_list_to_map_1 l k') by done.
      by rewrite lookup_insert_eq.
    + by rewrite !lookup_insert_ne by done.
Qed.

Lemma foldl_set_other ns ns' f (l : list (string * string)) st :
  ns' ≠ ns →
  foldl (fun st' kv => rs_set ns kv.1 (f kv.2) st') st l !! ns' = st !! ns'.
Proof.
  revert st. induction l as [|kv l IH]; intros st Hne; simpl; [done|].
  rewrite IH by done. by apply rs_set_other.
Qed.

(** The loop [for index, value := range m { Set(index, f(value)) }]
    writes every key of [m], and only those. *)
Lemma range_set_lookup ns f m st k :
  record_of ns (range_set ns f m st) !! k =
  match m !! k with Some v => Some (f v) | None => record_of ns st !! k end.
Proof.
  unfold range_set. rewrite foldl_set_lookup by apply NoDup_fst_map_to_list.
  by rewrite list_to_map_to_list.
Qed.

Lemma range_set_other ns ns' f m st :
  ns' ≠ ns → range_set ns f m st !! ns' = st !! ns'.
Proof. intros. by apply foldl_set_other. Qed.

(** ** Decimal conversions *)

Lemma uint_of_str_of_uint d : uint_of_str (str_of_uint d) = Some d.
Proof. induction d; simpl; rewrite ?IHd; reflexivity. Qed.

Lemma Atoi_str_of_uint d : Atoi (str_of_uint d) = atoi_digits false (str_of_uint d).
Proof. destruct d; reflexivity. Qed.

Lemma Atoi_Itoa z : (0 <= z <= int_max)%Z → Atoi (Itoa z) = z.
Proof.
  intros Hz. unfold Itoa. rewrite decide_False by lia.
  rewrite Atoi_str_of_uint. unfold atoi_digits.
  rewrite uint_of_str_of_uint, DecimalN.Unsigned.of_to, Z2N.id by lia.
  unfold clamp64, int_min, int_max in *. lia.
Qed.

Lemma Itoa_inj a b :
  (0 <= a <= int_max)%Z → (0 <= b <= int_max)%Z → Itoa a = Itoa b → a = b.
Proof.
  intros Ha Hb E. rewrite <- (Atoi_Itoa a), <- (Atoi_Itoa b) by done. by rewrite E.
Qed.

Lemma game_ns_inj a b :
  (0 <= a <= int_max)%Z → (0 <= b <= int_max)%Z →
  game_ns (Itoa a) = game_ns (Itoa b) → a = b.
Proof. intros Ha Hb E. apply Itoa_inj; [done|done|]. by apply (inj (String.append _)) in E. Qed.

Lemma game_ns_not_config a : game_ns (Itoa a) ≠ lobbies_ns.
Proof.
  intros E. unfold lobbies_ns, game_ns in E.
  change "gameServer-config" with ("gameServer-" ++ "config") in E.
  apply (inj (String.append _)) in E. revert E. unfold Itoa.
  destruct (decide _); [discriminate|]. destruct (N.to_uint _); discriminate.
Qed.

Lemma wrap64_small z : (int_min <= z <= int_max)%Z → wrap64 z = z.
Proof.
  intros Hz. unfold wrap64, int_min, int_max in *.
  rewrite Z.mod_small by lia. lia.
Qed.

(** ** CGAM and the lobby counter *)

Lemma rs_get_rs_set ns k v st : rs_get ns k (rs_set ns k v st) = v.
Proof. rewrite rs_get_record, record_of_rs_set. unfold mget. by rewrite lookup_insert_eq. Qed.

Lemma cgam_next_lid_counter st c :
  rs_get lobbies_ns "Lobbies" st = Itoa c → (0 <= c < int_max)%Z →
  cgam_next_lid st = (c + 1)%Z.
Proof.
  intros Hc Hb. unfold cgam_next_lid. rewrite Hc, Atoi_Itoa by lia.
  apply wrap64_small. unfold int_min, int_max in *. lia.
Qed.

Lemma cgam_write_other gameLid ip msg st ns :
  ns ≠ game_ns (Itoa gameLid) → cgam_write gameLid ip msg st !! ns = st !! ns.
Proof.
  intros Hne. unfold cgam_write. rewrite !rs_set_other by done.
  by apply range_set_other.
Qed.

(** One uninterrupted CGAM: it assigns [c + 1], leaves [c + 1] in the
    counter, and writes no namespace but its record and the counter. *)
Lemma cgam_call_spec ip msg st c :
  rs_get lobbies_ns "Lobbies" st = Itoa c → (0 <= c < int_max)%Z →
  (cgam_call ip msg st).2 = (c + 1)%Z ∧
  rs_get lobbies_ns "Lobbies" (cgam_call ip msg st).1 = Itoa (c + 1) ∧
  ∀ ns, ns ≠ game_ns (Itoa (c + 1)) → ns ≠ lobbies_ns →
    (cgam_call ip msg st).1 !! ns = st !! ns.
Proof.
  intros Hc Hb. unfold cgam_call. rewrite (cgam_next_lid_counter st c) by done.
  simpl. split; [done|]. split.
  - unfold cgam_commit. apply rs_get_rs_set.
  - intros ns Hg Hl. unfold cgam_commit. rewrite rs_set_other by done.
    by apply cgam_write_other.
Qed.

Lemma cgam_seq_cons ip msg calls st :
  cgam_seq ((ip, msg) :: calls) st =
  ((cgam_call ip msg st).2, (cgam_call ip msg st).1) :: cgam_seq calls (cgam_call ip msg st).1.
Proof. simpl. by destruct (cgam_call ip msg st). Qed.

Lemma cgam_seq_length calls st : length (cgam_seq calls st) = length calls.
Proof.
  revert st. induction calls as [|[ip msg] calls IH]; intros st; [done|].
  rewrite cgam_seq_cons. simpl. by rewrite IH.
Qed.

Lemma cgam_seq_ids calls st c :
  rs_get lobbies_ns "Lobbies" st = Itoa c → (0 <= c)%Z →
  (c + Z.of_nat (length calls) <= int_max)%Z →
  (cgam_seq calls st).*1 = map (fun i => c + 1 + Z.of_nat i)%Z (seq 0 (length calls)).
Proof.
  revert st c. induction calls as [|[ip msg] calls IH]; intros st c Hc H0 Hn; [done|].
  simpl length in Hn.
  destruct (cgam_call_spec ip msg st c) as (Hid & Hcnt & _); [done|lia|].
  rewrite cgam_seq_cons, fmap_cons. cbn [fst]. rewrite Hid.
  rewrite (IH _ (c + 1)%Z) by (done || lia).
  cbn [length seq map]. f_equal; [lia|]. rewrite <- seq_shift, map_map. apply map_ext. intros i. lia.
Qed.

(** Later calls of a sequential run leave the records of ids up to [c]
    untouched. *)
Lemma cgam_seq_keeps_old calls st c j lj stj d :
  rs_get lobbies_ns "Lobbies" st = Itoa c → (0 <= c)%Z →
  (c + Z.of_nat (length calls) <= int_max)%Z →
  cgam_seq calls st !! j = Some (lj, stj) → (0 <= d <= c)%Z →
  stj !! game_ns (Itoa d) = st !! game_ns (Itoa d).
Proof.
  revert st c j. induction calls as [|[ip msg] calls IH]; intros st c j Hc H0 Hn Hj Hd;
    [done|].
  simpl length in Hn.
  destruct (cgam_call_spec ip msg st c) as (Hid & Hcnt & Hfr); [done|lia|].
  rewrite cgam_seq_cons in Hj.
  assert ((cgam_call ip msg st).1 !! game_ns (Itoa d) = st !! game_ns (Itoa d)) as Hst.
  { apply Hfr.
    - intros E. apply game_ns_inj in E; unfold int_max in *; lia.
    - apply game_ns_not_config. }
  destruct j as [|j]; simpl in Hj.
  - injection Hj as <- <-. done.
  - rewrite <- Hst. apply (IH _ (c + 1)%Z j); (done || lia).
Qed.

(** C1 (claim as stated): two CGAM goroutines whose counter reads both
    happen before either write-back are assigned the same lobby id 1, and
    the second one overwrites the record [gameServer-1] written by the
    first. *)
Lemma cgam_interleaved_duplicate_id :
  let ts := [mkCThread "10.0.0.1" (pkt [("NAME", "A")]) CStart;
             mkCThread "10.0.0.2" (pkt [("NAME", "B")]) CStart] in
  (cgam_sched ts [0; 1; 0; 1]%nat (theater_new ∅)).2 = [1%Z; 1%Z] ∧
  rs_get (game_ns "1") "NAME" (cgam_sched ts [0; 1; 0]%nat (theater_new ∅)).1.2 = "A" ∧
  rs_get (game_ns "1") "NAME" (cgam_sched ts [0; 1; 0; 1]%nat (theater_new ∅)).1.2 = "B" ∧
  rs_get lobbies_ns "Lobbies" (cgam_sched ts [0; 1; 0; 1]%nat (theater_new ∅)).1.2 = "1".
Proof. vm_compute. repeat split. Qed.

(** C1 (amended): CGAM calls that run one after the other, from a counter
    holding a decimal [c >= 0] ([TheaterManager.New] writes "0"), are
    assigned [c + 1], [c + 2], ... (pairwise distinct and strictly
    increasing) as long as no [int] overflow occurs, and no later call
    changes the record [gameServer-<id>] of an earlier one. *)
Theorem cgam_sequential_unique_ids (calls : list (string * packet)) (st : store) (c : Z) :
  rs_get lobbies_ns "Lobbies" st = Itoa c → (0 <= c)%Z →
  (c + Z.of_nat (length calls) <= int_max)%Z →
  (cgam_seq calls st).*1 = map (fun i => c + 1 + Z.of_nat i)%Z (seq 0 (length calls)) ∧
  ∀ i j lid sti lj stj,
    cgam_seq calls st !! i = Some (lid, sti) → (i <= j)%nat →
    cgam_seq calls st !! j = Some (lj, stj) →
    stj !! game_ns (Itoa lid) = sti !! game_ns (Itoa lid).
Proof.
  intros Hc H0 Hn. split; [by apply cgam_seq_ids|].
  revert st c Hc H0 Hn.
  induction calls as [|[ip msg] calls IH]; intros st c Hc H0 Hn i j lid sti lj stj Hi Hij Hj;
    [done|].
  simpl length in Hn.
  destruct (cgam_call_spec ip msg st c) as (Hid & Hcnt & _); [done|lia|].
  rewrite cgam_seq_cons in Hi, Hj.
  destruct (cgam_call ip msg st) as [st' id]. cbn [fst snd] in *. subst id.
  destruct i as [|i]; simpl in Hi.
  - injection Hi as <- <-.
    destruct j as [|j]; simpl in Hj.
    + injection Hj as _ <-. done.
    + apply (cgam_seq_keeps_old calls _ (c + 1)%Z j lj); (done || lia).
  - destruct j as [|j]; [lia|]. simpl in Hj.
    apply (IH st' (c + 1)%Z Hcnt ltac:(lia) ltac:(lia) i j lid sti lj stj); (done || lia).
Qed.

Lemma cgam_sequential_unique_ids_witness :
  let calls := [("10.0.0.1", pkt [("NAME", "A")]); ("10.0.0.2", pkt [("NAME", "B")])] in
  (cgam_seq calls (theater_new ∅)).*1 =
    map (fun i => 0 + 1 + Z.of_nat i)%Z (seq 0 (length calls)) ∧
  ∀ i j lid sti lj stj,
    cgam_seq calls (theater_new ∅) !! i = Some (lid, sti) → (i <= j)%nat →
    cgam_seq calls (theater_new ∅) !! j = Some (lj, stj) →
    stj !! game_ns (Itoa lid) = sti !! game_ns (Itoa lid).
Proof.
  intros calls. apply (cgam_sequential_unique_ids calls (theater_new ∅) 0%Z).
  - reflexivity.
  - lia.
  - vm_compute. congruence.
Defined.

Lemma rs_get_set_other_ns ns ns' k k' v st :
  ns ≠ ns' → rs_get ns k (rs_set ns' k' v st) = rs_get ns k st.
Proof. intros. unfold rs_get. by rewrite rs_set_other. Qed.

Lemma rs_get_set_other_key ns k k' v st :
  k ≠ k' → rs_get ns k (rs_set ns k' v st) = rs_get ns k st.
Proof.
  intros. rewrite !rs_get_record, record_of_rs_set. unfold mget.
  by rewrite lookup_insert_ne.
Qed.

(** ** Inactive sessions *)

(** C5: every command handler, the second UGAM draft and the FESL
    [GetStats] included, does nothing on a session whose [IsActive] is
    false: no packet, the world and the session unchanged; the theater
    step leaves the whole system as it was. *)
Theorem inactive_session_noop cmd o c msg w :
  IsActive c = false →
  handle cmd o c msg w = Done w c [] ∧
  ∀ S s, sys_clients S !! s = Some c → sys_world S = w →
    sys_step S (EvCmd s cmd o msg) = Some S.
Proof.
  intros Hin.
  assert (handle cmd o c msg w = Done w c []) as Hh.
  { destruct cmd; simpl;
      unfold CONN, USER, LLST, GDAT, EGAM, ECNL, CGAM, UBRA, UGAM, EGRS, GLST,
        PENT, UPLA, UGAM2, GetStats; rewrite Hin; reflexivity. }
  split; [done|]. intros [w0 cl tm out] s Hs Hw. simpl in *. subst w0.
  destruct (theater_cmd cmd); [|done]. simpl. rewrite Hs, Hh.
  rewrite insert_id by done. by rewrite app_nil_r.
Qed.

Lemma inactive_session_noop_witness :
  let c := mkClient false false (Some "10.0.0.1") "" in
  let w := mkWorld globals0 (theater_new ∅) [] in
  handle cCGAM (mkOracle true (fun _ => None) (fun _ => None) None 0 "") c
    (pkt [("TID", "1")]) w = Done w c [] ∧
  ∀ S s, sys_clients S !! s = Some c → sys_world S = w →
    sys_step S (EvCmd s cCGAM (mkOracle true (fun _ => None) (fun _ => None) None 0 "")
                  (pkt [("TID", "1")])) = Some S.
Proof. intros c w. apply inactive_session_noop. reflexivity. Defined.

(** ** CGAM record fields *)

(** C7: a CGAM on an active session whose address is a TCP address
    stores, in the record of the id it assigns, the observed IP (over any
    IP attribute of the message) and zero ACTIVE-PLAYERS and
    QUEUE-LENGTH. *)
Theorem cgam_record_ip_and_counters c msg w ip :
  IsActive c = true → IpAddr c = Some ip →
  ∃ w' out, CGAM c msg w = Done w' c out ∧
    let ns := game_ns (Itoa (cgam_next_lid (redis w))) in
    rs_get ns "IP" (redis w') = ip ∧
    rs_get ns "ACTIVE-PLAYERS" (redis w') = "0" ∧
    rs_get ns "QUEUE-LENGTH" (redis w') = "0".
Proof.
  intros Ha Hip. unfold CGAM. rewrite Ha, Hip. simpl.
  eexists _, _. split; [reflexivity|]. simpl.
  unfold cgam_commit, cgam_write.
  pose proof (game_ns_not_config (cgam_next_lid (redis w))) as Hne.
  rewrite !(rs_get_set_other_ns _ lobbies_ns) by done.
  split; [|split].
  - rewrite !rs_get_set_other_key by discriminate. apply rs_get_rs_set.
  - rewrite rs_get_set_other_key by discriminate. apply rs_get_rs_set.
  - apply rs_get_rs_set.
Qed.

Lemma cgam_record_ip_and_counters_witness :
  let c := mkClient true true (Some "10.0.0.1") "" in
  let w := mkWorld globals0 (theater_new ∅) [] in
  ∃ w' out, CGAM c (pkt [("IP", "6.6.6.6")]) w = Done w' c out ∧
    let ns := game_ns (Itoa (cgam_next_lid (redis w))) in
    rs_get ns "IP" (redis w') = "10.0.0.1" ∧
    rs_get ns "ACTIVE-PLAYERS" (redis w') = "0" ∧
    rs_get ns "QUEUE-LENGTH" (redis w') = "0".
Proof. intros c w. apply cgam_record_ip_and_counters; reflexivity. Defined.

(** ** EGAM acknowledgement *)

(** C4 (claim as stated): when the identity statement cannot be prepared,
    an active client's EGAM gets no acknowledgement. *)
Lemma egam_no_ack_when_prepare_fails :
  sent_of (EGAM (mkOracle false (fun _ => Some ("7", "Bob")) (fun _ => None) None 0 "")
             (mkClient true false (Some "10.0.0.3") "")
             (pkt [("TID", "4"); ("R-U-accid", "42")])
             (mkWorld globals0 (theater_new ∅) [])) = [].
Proof. reflexivity. Qed.

(** C4 (amended): once the identity statement is prepared, an active
    client's EGAM is acknowledged with [TID] echoed whatever the lookup
    of the account id returns (row or no row); when the statement cannot
    be prepared, nothing is written. *)
Theorem egam_ack_when_prepared o c msg w :
  IsActive c = true →
  (o_prepare_ok o = true →
   sent_of (EGAM o c msg w) =
     [("EGAM", pkt [("TID", mget msg "TID"); ("GID", "5459"); ("LID", "1")])]) ∧
  (o_prepare_ok o = false → sent_of (EGAM o c msg w) = []).
Proof.
  intros Ha. unfold EGAM. rewrite Ha. simpl.
  split; intros Hp; rewrite Hp; reflexivity.
Qed.

Lemma egam_ack_when_prepared_witness :
  let o := mkOracle true (fun _ => None) (fun _ => None) None 0 "" in
  let msg := pkt [("TID", "4"); ("R-U-accid", "42")] in
  let c := mkClient true false (Some "10.0.0.3") "" in
  let w := mkWorld globals0 (theater_new ∅) [] in
  (o_prepare_ok o = true →
   sent_of (EGAM o c msg w) =
     [("EGAM", pkt [("TID", mget msg "TID"); ("GID", "5459"); ("LID", "1")])]) ∧
  (o_prepare_ok o = false → sent_of (EGAM o c msg w) = []).
Proof. intros o msg c w. apply egam_ack_when_prepared. reflexivity. Defined.

(** ** UGAM and GDAT *)

Lemma interleaving_sym {A} (l1 l2 l : list A) :
  interleaving l1 l2 l → interleaving l2 l1 l.
Proof. induction 1; constructor; done. Qed.

Lemma apply_sets_cons ns x l st :
  apply_sets ns (x :: l) st = apply_sets ns l (rs_set ns x.1 x.2 st).
Proof. reflexivity. Qed.

(** In an interleaving of two [Set] sequences, a key written only by the
    first one ends with the value the first one wrote. *)
Lemma apply_sets_interleaving_lookup ns (l1 l2 l : list (string * string)) st k :
  interleaving l1 l2 l → NoDup l1.*1 → k ∉ l2.*1 →
  record_of ns (apply_sets ns l st) !! k =
  match (list_to_map l1 : packet) !! k with
  | Some v => Some v
  | None => record_of ns st !! k
  end.
Proof.
  intros Hil. revert st. induction Hil as [|[k' v'] l1 l2 l Hil IH|[k' v'] l1 l2 l Hil IH];
    intros st Hnd Hk.
  - by rewrite list_to_map_nil, lookup_empty.
  - inversion Hnd as [|? ? Hnin Hnd']; subst.
    rewrite apply_sets_cons, IH by done. cbn [fst snd].
    rewrite record_of_rs_set, list_to_map_cons.
    destruct (decide (k = k')) as [->|Hne].
    + rewrite lookup_insert_eq, (not_elem_of_list_to_map_1 l1 k') by done.
      by rewrite lookup_insert_eq.
    + by rewrite !lookup_insert_ne by done.
  - rewrite apply_sets_cons, IH by (try done; set_solver). cbn [fst snd].
    rewrite record_of_rs_set. destruct (list_to_map l1 !! k); [done|].
    rewrite lookup_insert_ne; [done|]. set_solver.
Qed.

Lemma not_in_map_to_list_fst (m : packet) k : m !! k = None → k ∉ (map_to_list m).*1.
Proof.
  intros Hk Hin. apply list_elem_of_fmap in Hin as [[k' v] [-> Hin]].
  apply elem_of_map_to_list in Hin. simpl in *. congruence.
Qed.

Lemma ugam_only_writer_wins ns msg1 msg2 l1 l2 l st k v :
  l1 ≡ₚ map_to_list msg1 → l2 ≡ₚ map_to_list msg2 →
  interleaving l1 l2 l →
  msg1 !! k = Some v → msg2 !! k = None →
  rs_get ns k (apply_sets ns l st) = v.
Proof.
  intros P1 P2 Hil H1 H2. rewrite rs_get_record. unfold mget.
  assert (NoDup l1.*1) as Hnd by (rewrite P1; apply NoDup_fst_map_to_list).
  rewrite (apply_sets_interleaving_lookup ns _ _ _ _ _ Hil Hnd).
  - rewrite (list_to_map_proper l1 (map_to_list msg1)) by done.
    by rewrite list_to_map_to_list, H1.
  - rewrite P2. by apply not_in_map_to_list_fst.
Qed.

(** C3 (claim as stated): after a UGAM that sets N for lobby 1, GDAT for
    lobby 1 still answers the fixed server name. *)
Lemma ugam_then_gdat_fixed_name :
  let c := mkClient true true (Some "10.0.0.1") "" in
  let w1 := world_of (UGAM c (pkt [("TID", "2"); ("LID", "1"); ("N", "My server")])
                        (mkWorld globals0 (theater_new ∅) [])) in
  rs_get (game_ns "1") "N" (redis w1) = "My server" ∧
  sent_of (GDAT c (pkt [("TID", "3"); ("LID", "1")]) w1) =
    [("GDAT", gdat_answer (pkt [("TID", "3"); ("LID", "1")]))] ∧
  mget (gdat_answer (pkt [("TID", "3"); ("LID", "1")])) "N" =
    "[iad]gs1-test.revive.systems(45.77.79.240%3a18569)".
Proof. vm_compute. repeat split. Qed.

(** C3 (amended): UGAM on an active session writes every key of the
    message, value as sent, into [gameServer-<LID>] and keeps the other
    fields; when two UGAMs run interleaved on one record, each visiting
    its message's entries in any order, a key sent by only one of them
    ends with that one's value (no lost update). GDAT
    does not read the record: its answer is the fixed packet
    [gdat_answer], in which only TID comes from the request. *)
Theorem ugam_writes_gdat_fixed c msg w :
  IsActive c = true →
  (∀ k, record_of (game_ns (mget msg "LID")) (redis (world_of (UGAM c msg w))) !! k =
        match msg !! k with
        | Some v => Some v
        | None => record_of (game_ns (mget msg "LID")) (redis w) !! k
        end) ∧
  (∀ ns msg1 msg2 l1 l2 l st k v,
     l1 ≡ₚ map_to_list msg1 → l2 ≡ₚ map_to_list msg2 →
     interleaving l1 l2 l →
     (msg1 !! k = Some v ∧ msg2 !! k = None) ∨ (msg2 !! k = Some v ∧ msg1 !! k = None) →
     rs_get ns k (apply_sets ns l st) = v) ∧
  (∀ msg' w', sent_of (GDAT c msg' w') = [("GDAT", gdat_answer msg')]).
Proof.
  intros Ha. split; [|split].
  - intros k. unfold UGAM. rewrite Ha. simpl. by rewrite range_set_lookup.
  - intros ns msg1 msg2 l1 l2 l st k v P1 P2 Hil [[H1 H2]|[H1 H2]].
    + exact (ugam_only_writer_wins ns msg1 msg2 l1 l2 l st k v P1 P2 Hil H1 H2).
    + exact (ugam_only_writer_wins ns msg2 msg1 l2 l1 l st k v P2 P1
               (interleaving_sym _ _ _ Hil) H1 H2).
  - intros msg' w'. unfold GDAT. by rewrite Ha.
Qed.

Lemma ugam_writes_gdat_fixed_witness :
  let c := mkClient true true (Some "10.0.0.1") "" in
  let msg := pkt [("TID", "2"); ("LID", "1"); ("N", "My server")] in
  let w := mkWorld globals0 (theater_new ∅) [] in
  (∀ k, record_of (game_ns (mget msg "LID")) (redis (world_of (UGAM c msg w))) !! k =
        match msg !! k with
        | Some v => Some v
        | None => record_of (game_ns (mget msg "LID")) (redis w) !! k
        end) ∧
  (∀ ns msg1 msg2 l1 l2 l st k v,
     l1 ≡ₚ map_to_list msg1 → l2 ≡ₚ map_to_list msg2 →
     interleaving l1 l2 l →
     (msg1 !! k = Some v ∧ msg2 !! k = None) ∨ (msg2 !! k = Some v ∧ msg1 !! k = None) →
     rs_get ns k (apply_sets ns l st) = v) ∧
  (∀ msg' w', sent_of (GDAT c msg' w') = [("GDAT", gdat_answer msg')]).
Proof. intros c msg w. apply ugam_writes_gdat_fixed. reflexivity. Defined.

(** ** The second UGAM draft *)

Lemma ugam2_loop_lookup gid (l : list (string * string)) st keys args k :
  NoDup l.*1 →
  record_of (gdata_ns gid) (ugam2_loop gid l st keys args).1.1 !! k =
  if decide (k = "TID") then record_of (gdata_ns gid) st !! k
  else match (list_to_map l : packet) !! k with
       | Some v => Some (strip_quotes v)
       | None => record_of (gdata_ns gid) st !! k
       end.
Proof.
  revert st keys args. induction l as [|[k' v'] l IH]; intros st keys args Hnd.
  - cbn [ugam2_loop fst]. rewrite list_to_map_nil, lookup_empty. by destruct (decide _).
  - inversion Hnd as [|? ? Hnin Hnd']; subst. cbn [ugam2_loop].
    rewrite list_to_map_cons.
    destruct (decide (k' = "TID")) as [->|Hk'].
    + rewrite IH by done. destruct (decide (k = "TID")); [done|].
      by rewrite lookup_insert_ne.
    + rewrite IH by done. rewrite record_of_rs_set.
      destruct (decide (k = "TID")) as [->|Hk].
      * by rewrite lookup_insert_ne.
      * destruct (decide (k = k')) as [->|Hne].
        -- rewrite (not_elem_of_list_to_map_1 l k') by done.
           by rewrite !lookup_insert_eq.
        -- by rewrite !lookup_insert_ne by done.
Qed.

Lemma strip_delete_lookup (msg : packet) k :
  (strip_quotes <$> delete "TID" msg) !! k =
  if decide (k = "TID") then None else strip_quotes <$> msg !! k.
Proof.
  rewrite lookup_fmap. destruct (decide (k = "TID")) as [->|Hk].
  - by rewrite lookup_delete_eq.
  - by rewrite lookup_delete_ne.
Qed.

(** The store the second draft leaves, in every branch: the [gdata]
    record of GID gets the message without TID, quotes stripped. *)
Lemma ugam2_gdata_record o c msg w k :
  IsActive c = true →
  record_of (gdata_ns (mget msg "GID")) (redis (world_of (UGAM2 o c msg w))) !! k =
  match (strip_quotes <$> delete "TID" msg) !! k with
  | Some v => Some v
  | None => record_of (gdata_ns (mget msg "GID")) (redis w) !! k
  end.
Proof.
  intros Ha.
  assert (redis (world_of (UGAM2 o c msg w)) =
          (ugam2_loop (mget msg "GID") (map_to_list msg) (redis w) 0 []).1.1) as ->.
  { unfold UGAM2. rewrite Ha. simpl.
    destruct (ugam2_loop _ _ _ _ _) as [[st keys] args]. simpl.
    destruct (o_exec o 0); [done|]. simpl.
    destruct (o_exec o 1) as [err|]; [|done]. by destruct (decide _). }
  rewrite ugam2_loop_lookup by apply NoDup_fst_map_to_list.
  rewrite list_to_map_to_list, strip_delete_lookup.
  destruct (decide (k = "TID")); [done|]. by destruct (msg !! k).
Qed.

(** C9 (claim as stated): a message with a TID and a quoted value; the
    first draft writes TID and the quotes, the second neither. *)
Lemma ugam_drafts_differ :
  let c := mkClient true true (Some "10.0.0.1") "" in
  let msg := pkt [("TID", "3"); ("LID", "1"); ("GID", "1");
                  ("NAME", String dquote (String "x"%char (String dquote "")))] in
  let w := mkWorld globals0 (theater_new ∅) [] in
  let o := mkOracle true (fun _ => None) (fun _ => None) None 0 "1" in
  record_of (game_ns "1") (redis (world_of (UGAM c msg w))) !! "TID" = Some "3" ∧
  record_of (gdata_ns "1") (redis (world_of (UGAM2 o c msg w))) !! "TID" = None ∧
  record_of (game_ns "1") (redis (world_of (UGAM c msg w))) !! "NAME" =
    Some (String dquote (String "x"%char (String dquote ""))) ∧
  record_of (gdata_ns "1") (redis (world_of (UGAM2 o c msg w))) !! "NAME" = Some "x".
Proof. vm_compute. repeat split. Qed.

(** C9 (amended): the first draft writes the message's pairs unchanged
    into [gameServer-<LID>]; the second writes into the [gdata] record of
    GID the pairs without TID, each value with one leading and one
    trailing double quote stripped. The two sets of pairs are equal
    exactly when the message has no TID and stripping leaves every value
    unchanged. *)
Theorem ugam_drafts_written_pairs o c msg w :
  IsActive c = true →
  (∀ k, record_of (game_ns (mget msg "LID")) (redis (world_of (UGAM c msg w))) !! k =
        match msg !! k with
        | Some v => Some v
        | None => record_of (game_ns (mget msg "LID")) (redis w) !! k
        end) ∧
  (∀ k, record_of (gdata_ns (mget msg "GID")) (redis (world_of (UGAM2 o c msg w))) !! k =
        match (strip_quotes <$> delete "TID" msg) !! k with
        | Some v => Some v
        | None => record_of (gdata_ns (mget msg "GID")) (redis w) !! k
        end) ∧
  (strip_quotes <$> delete "TID" msg = msg ↔
   msg !! "TID" = None ∧ ∀ k v, msg !! k = Some v → strip_quotes v = v).
Proof.
  intros Ha. split; [|split].
  - intros k. unfold UGAM. rewrite Ha. simpl. by rewrite range_set_lookup.
  - intros k. by apply ugam2_gdata_record.
  - split.
    + intros E. split.
      * rewrite <- E, strip_delete_lookup. by rewrite decide_True.
      * intros k v Hk. pose proof (f_equal (lookup k) E) as Ek.
        rewrite strip_delete_lookup, Hk in Ek.
        destruct (decide (k = "TID")); [congruence|]. simpl in Ek. congruence.
    + intros [Ht Hv]. apply map_eq. intros k. rewrite strip_delete_lookup.
      destruct (decide (k = "TID")) as [->|Hk]; [done|].
      destruct (msg !! k) as [v|] eqn:Ek; [|done]. simpl. f_equal. by apply (Hv k).
Qed.

Lemma ugam_drafts_written_pairs_witness :
  let c := mkClient true true (Some "10.0.0.1") "" in
  let msg := pkt [("LID", "1"); ("GID", "1"); ("NAME", "x")] in
  let w := mkWorld globals0 (theater_new ∅) [] in
  let o := mkOracle true (fun _ => None) (fun _ => None) None 0 "1" in
  (∀ k, record_of (game_ns (mget msg "LID")) (redis (world_of (UGAM c msg w))) !! k =
        match msg !! k with
        | Some v => Some v
        | None => record_of (game_ns (mget msg "LID")) (redis w) !! k
        end) ∧
  (∀ k, record_of (gdata_ns (mget msg "GID")) (redis (world_of (UGAM2 o c msg w))) !! k =
        match (strip_quotes <$> delete "TID" msg) !! k with
        | Some v => Some v
        | None => record_of (gdata_ns (mget msg "GID")) (redis w) !! k
        end) ∧
  (strip_quotes <$> delete "TID" msg = msg ↔
   msg !! "TID" = None ∧ ∀ k v, msg !! k = Some v → strip_quotes v = v).
Proof. intros c msg w o. apply ugam_drafts_written_pairs. reflexivity. Defined.

Lemma filter_all {A} (P : A → Prop) `{∀ x, Decision (P x)} (l : list A) :
  Forall P l → filter P l = l.
Proof.
  induction l as [|x l IH]; intros Hf; [done|]. apply Forall_cons in Hf as [Hx Hf].
  rewrite filter_cons_True by done. by rewrite IH.
Qed.

Lemma filter_not_TID_length (msg : packet) :
  length (filter (fun kv : string * string => kv.1 ≠ "TID") (map_to_list msg)) =
  size (delete "TID" msg).
Proof.
  destruct (msg !! "TID") as [x|] eqn:E.
  - rewrite <- (map_to_list_delete msg "TID" x E).
    rewrite filter_cons_False by (simpl; tauto).
    rewrite filter_all; [apply length_map_to_list|].
    apply Forall_forall. intros [k v] Hk. apply elem_of_map_to_list in Hk. simpl. intros ->.
    by rewrite lookup_delete_eq in Hk.
  - rewrite delete_id by done. rewrite filter_all; [apply length_map_to_list|].
    apply Forall_forall. intros [k v] Hk. apply elem_of_map_to_list in Hk. simpl. intros ->.
    congruence.
Qed.

Lemma ugam2_loop_counts gid (l : list (string * string)) st keys args :
  (ugam2_loop gid l st keys args).1.2 =
    keys + length (filter (fun kv : string * string => kv.1 ≠ "TID") l) ∧
  length (ugam2_loop gid l st keys args).2 =
    length args + 3 * length (filter (fun kv : string * string => kv.1 ≠ "TID") l).
Proof.
  revert st keys args. induction l as [|[k v] l IH]; intros st keys args; simpl.
  - lia.
  - case_decide.
    + subst. rewrite filter_cons_False by (simpl; tauto). apply IH.
    + rewrite filter_cons_True by done. simpl.
      destruct (IH (rs_set (gdata_ns gid) k (strip_quotes v) st) (S keys)
                  (args ++ [gid; k; strip_quotes v])%list) as [H1 H2].
      rewrite H1, H2, length_app. simpl. lia.
Qed.

Lemma filter_not_TID_perm_length (msg : packet) l :
  l ≡ₚ map_to_list msg →
  length (filter (fun kv : string * string => kv.1 ≠ "TID") l) = size (delete "TID" msg).
Proof. intros P. rewrite <- filter_not_TID_length. apply Permutation_length. by rewrite P. Qed.

Lemma ugam2_loop_args gid (l : list (string * string)) st keys args :
  (ugam2_loop gid l st keys args).2 =
    (args ++ mjoin (map (fun kv : string * string => [gid; kv.1; strip_quotes kv.2])
                       (filter (fun kv : string * string => kv.1 ≠ "TID") l)))%list.
Proof.
  revert st keys args. induction l as [|[k v] l IH]; intros st keys args; simpl.
  - by rewrite app_nil_r.
  - case_decide.
    + subst. rewrite filter_cons_False by (simpl; tauto). apply IH.
    + rewrite filter_cons_True by done. rewrite IH. simpl. by rewrite <- app_assoc.
Qed.

(** C6 (claim as stated): a lock-wait timeout of the stats statement is
    not retried, and a deadlock of the preceding game-update statement
    panics. *)
Lemma ugam2_lock_timeout_not_retried :
  let c := mkClient true true (Some "10.0.0.1") "" in
  let msg := pkt [("TID", "3"); ("GID", "1"); ("NAME", "x")] in
  let w := mkWorld globals0 (theater_new ∅) [] in
  let timeout := "Error 1205: Lock wait timeout exceeded; try restarting transaction" in
  let o1 := mkOracle true (fun _ => None)
              (fun n => match n with 1%nat => Some timeout | _ => None end) None 0 "1" in
  let o2 := mkOracle true (fun _ => None)
              (fun n => match n with 0%nat => Some deadlock_msg | _ => None end) None 0 "1" in
  length (filter (fun e => ex_stmt e ≠ "stmtUpdateGame")
            (durable (world_of (UGAM2 o1 c msg w)))) = 1%nat ∧
  match UGAM2 o2 c msg w with Panic _ _ _ => True | Done _ _ _ => False end.
Proof. vm_compute. split; [reflexivity|exact I]. Qed.

(** C6 (amended): when the game-update statement succeeds, the stats
    statement [setServerStatsStatement(keys)], for [keys] the number of
    message keys other than TID, is executed with the same 3 * [keys]
    arguments once, and a second time exactly when its first error text is
    MySQL's error 1213 deadlock message; whatever the second attempt
    returns the handler ends normally. When the game-update statement
    fails, the handler panics. In every case the [gdata] record of GID
    holds the message's fields without TID, quotes stripped. *)
Theorem ugam2_deadlock_retry_once o c msg w :
  IsActive c = true →
  (o_exec o 0 = None →
   ∃ w' args, UGAM2 o c msg w = Done w' c [] ∧
     durable w' = (durable w ++
       mkExec "stmtUpdateGame" [mget msg "GID"; o_shard o] true ::
       mkExec (stats_stmt (size (delete "TID" msg))) args (bool_decide (o_exec o 1 = None)) ::
       (if decide (o_exec o 1 = Some deadlock_msg)
        then [mkExec (stats_stmt (size (delete "TID" msg))) args (bool_decide (o_exec o 2 = None))]
        else []))%list ∧
     length args = 3 * size (delete "TID" msg)) ∧
  (∀ err, o_exec o 0 = Some err → ∃ w', UGAM2 o c msg w = Panic w' c []) ∧
  (∀ k, record_of (gdata_ns (mget msg "GID")) (redis (world_of (UGAM2 o c msg w))) !! k =
        match (strip_quotes <$> delete "TID" msg) !! k with
        | Some v => Some v
        | None => record_of (gdata_ns (mget msg "GID")) (redis w) !! k
        end).
Proof.
  intros Ha. split; [|split].
  - intros H0. unfold UGAM2. rewrite Ha. simpl.
    pose proof (ugam2_loop_counts (mget msg "GID") (map_to_list msg) (redis w) 0 []) as [Hk Hl].
    rewrite filter_not_TID_length in Hk, Hl.
    destruct (ugam2_loop _ _ _ _ _) as [[st keys] args].
    simpl in Hk, Hl. subst keys. rewrite H0. simpl.
    destruct (o_exec o 1) as [err|] eqn:E1.
    + destruct (decide (err = deadlock_msg)) as [->|Hne].
      * exists (add_exec (add_exec (add_exec (set_redis w st) "stmtUpdateGame"
                  [mget msg "GID"; o_shard o] None) (stats_stmt (size (delete "TID" msg))) args
                  (Some deadlock_msg)) (stats_stmt (size (delete "TID" msg))) args (o_exec o 2)), args.
        split; [reflexivity|]. split; [|lia]. simpl.
        try rewrite decide_True by done. by rewrite <- !app_assoc.
      * eexists _, args. split; [reflexivity|]. split; [|lia]. simpl.
        try rewrite decide_False by congruence. by rewrite <- !app_assoc.
    + eexists _, args. split; [reflexivity|]. split; [|lia]. simpl.
      try rewrite decide_False by congruence. by rewrite <- !app_assoc.
  - intros err H0. unfold UGAM2. rewrite Ha. simpl.
    destruct (ugam2_loop _ _ _ _ _) as [[st keys] args]. rewrite H0. by eexists.
  - intros k. by apply ugam2_gdata_record.
Qed.

Lemma ugam2_deadlock_retry_once_witness :
  let c := mkClient true true (Some "10.0.0.1") "" in
  let msg := pkt [("TID", "3"); ("GID", "1"); ("NAME", "x")] in
  let w := mkWorld globals0 (theater_new ∅) [] in
  let o := mkOracle true (fun _ => None)
             (fun n => match n with 1%nat => Some deadlock_msg | _ => None end) None 0 "1" in
  (∃ w' args, UGAM2 o c msg w = Done w' c [] ∧
     durable w' = (durable w ++
       mkExec "stmtUpdateGame" [mget msg "GID"; o_shard o] true ::
       mkExec (stats_stmt (size (delete "TID" msg))) args (bool_decide (o_exec o 1 = None)) ::
       (if decide (o_exec o 1 = Some deadlock_msg)
        then [mkExec (stats_stmt (size (delete "TID" msg))) args (bool_decide (o_exec o 2 = None))]
        else []))%list ∧
     length args = 3 * size (delete "TID" msg)) ∧
  (∀ err, o_exec o 0 = Some err → ∃ w', UGAM2 o c msg w = Panic w' c []) ∧
  (∀ k, record_of (gdata_ns (mget msg "GID")) (redis (world_of (UGAM2 o c msg w))) !! k =
        match (strip_quotes <$> delete "TID" msg) !! k with
        | Some v => Some v
        | None => record_of (gdata_ns (mget msg "GID")) (redis w) !! k
        end).
Proof.
  intros c msg w o. destruct (ugam2_deadlock_retry_once o c msg w eq_refl) as (H1 & H2 & H3).
  split; [apply H1; reflexivity|split; [exact H2|exact H3]].
Defined.

(** ** Handlers seen from the system *)

Ltac unfold_handlers :=
  unfold CONN, USER, LLST, GDAT, EGAM, ECNL, CGAM, UBRA, UGAM, EGRS, GLST, PENT,
    UPLA, UGAM2, GetStats.

Lemma handle_active cmd o c msg w :
  IsActive (client_of (handle cmd o c msg w)) = IsActive c.
Proof.
  destruct cmd; simpl; unfold_handlers; repeat (case_match; simpl); reflexivity.
Qed.

Lemma handle_globals cmd o c msg w :
  cmd ≠ cEGAM → globals (world_of (handle cmd o c msg w)) = globals w.
Proof.
  intros Hne. destruct cmd; try congruence; simpl; unfold_handlers;
    repeat (case_match; simpl); reflexivity.
Qed.

Lemma handle_sent_names cmd o c msg w :
  theater_cmd cmd = true →
  Forall (fun m => m.1 ≠ "EGRQ" ∧ m.1 ≠ "PING") (sent_of (handle cmd o c msg w)).
Proof.
  intros Ht. destruct cmd; try discriminate; simpl; unfold_handlers;
    repeat (case_match; simpl); repeat constructor; simpl; discriminate.
Qed.

Lemma join_tick_ident c g :
  userId (join_tick c g).1 = userId g ∧ nickname (join_tick c g).1 = nickname g ∧
  pid (join_tick c g).1 = pid g.
Proof. unfold join_tick. repeat (case_match; simpl); simplify_eq/=; auto. Qed.

Lemma join_tick_no_pending c g :
  wantsToJoin g = false →
  wantsToJoin (join_tick c g).1 = false ∧
  Forall (fun m => m.1 ≠ "EGRQ" ∧ m.1 ≠ "PING") (join_tick c g).2.
Proof.
  intros Hw. unfold join_tick. rewrite Hw.
  repeat (case_match; simpl); simplify_eq/=; (split; [done|]);
    repeat constructor; simpl; discriminate.
Qed.

Lemma join_tick_server c g :
  IsActive c = true → IsServer c = true → wantsToJoin g = true →
  (join_tick c g).2 = [("EGRQ", egrq_packet g)] ∧ wantsToJoin (join_tick c g).1 = false.
Proof.
  intros Ha Hs Hw. unfold join_tick. rewrite Ha, Hs, Hw. simpl.
  by destruct (wantsToLeaveQueue g).
Qed.

Lemma join_tick_no_ping c g :
  Forall (fun m => m.1 ≠ "PING") (join_tick c g).2.
Proof.
  unfold join_tick. repeat (case_match; simpl); simplify_eq/=;
    repeat constructor; simpl; discriminate.
Qed.

(** ** System steps *)

Lemma tag_forall s out (P : string * packet → Prop) :
  Forall P out → Forall (fun m => P m.2) (tag s out).
Proof. intros H. unfold tag. apply Forall_fmap. eapply Forall_impl; [exact H|]. done. Qed.

Lemma heart_tick_names c :
  Forall (fun m => m.1 ≠ "EGRQ") (heart_tick c).
Proof. unfold heart_tick. destruct (IsActive c); simpl; repeat constructor; discriminate. Qed.

(** A step that is not a join request keeps the joining identity; only a
    join tick can clear the pending-join flag, and while it is clear no
    EGRQ is sent. *)
Lemma sys_step_not_egam S e S' :
  is_egam e = false → sys_step S e = Some S' →
  ∃ out, sys_out S' = (sys_out S ++ out)%list ∧
    userId (globals (sys_world S')) = userId (globals (sys_world S)) ∧
    nickname (globals (sys_world S')) = nickname (globals (sys_world S)) ∧
    pid (globals (sys_world S')) = pid (globals (sys_world S)) ∧
    (is_join_tick e = false →
     wantsToJoin (globals (sys_world S')) = wantsToJoin (globals (sys_world S))) ∧
    (wantsToJoin (globals (sys_world S)) = false →
     wantsToJoin (globals (sys_world S')) = false ∧ Forall (fun m => m.2.1 ≠ "EGRQ") out).
Proof.
  intros He Hs.
  assert (∀ S0, S' = S0 → S0 = S →
          ∃ out, sys_out S' = (sys_out S ++ out)%list ∧
    userId (globals (sys_world S')) = userId (globals (sys_world S)) ∧
    nickname (globals (sys_world S')) = nickname (globals (sys_world S)) ∧
    pid (globals (sys_world S')) = pid (globals (sys_world S)) ∧
    (is_join_tick e = false →
     wantsToJoin (globals (sys_world S')) = wantsToJoin (globals (sys_world S))) ∧
    (wantsToJoin (globals (sys_world S)) = false →
     wantsToJoin (globals (sys_world S')) = false ∧ Forall (fun m => m.2.1 ≠ "EGRQ") out))
    as Hsame.
  { intros S0 -> ->. exists []. rewrite app_nil_r. repeat split; auto. }
  destruct e as [s c|s cmd o msg|s|s|s]; simpl in Hs.
  - injection Hs as <-. exists []. simpl. rewrite app_nil_r. repeat split; auto.
  - destruct (theater_cmd cmd) eqn:Ht; simpl in Hs; [|injection Hs as <-; by apply (Hsame S)].
    destruct (sys_clients S !! s) as [c|]; [|injection Hs as <-; by apply (Hsame S)].
    assert (cmd ≠ cEGAM) as Hne by (intros ->; discriminate).
    pose proof (handle_globals cmd o c msg (sys_world S) Hne) as Hg.
    pose proof (handle_sent_names cmd o c msg (sys_world S) Ht) as Hn.
    destruct (handle cmd o c msg (sys_world S)) as [w c' out|]; [|discriminate].
    injection Hs as <-. simpl in *. exists (tag s out). rewrite Hg.
    repeat split; auto. apply (tag_forall s out (fun m => m.1 ≠ "EGRQ")). eapply Forall_impl; [exact Hn|]. by intros m [].
  - destruct (sys_clients S !! s) as [c|]; [|injection Hs as <-; by apply (Hsame S)].
    destruct (decide (s ∈ sys_timers S)); [|injection Hs as <-; by apply (Hsame S)].
    injection Hs as <-. simpl. exists (tag s (heart_tick c)).
    repeat split; auto. apply (tag_forall s _ (fun m => m.1 ≠ "EGRQ")), heart_tick_names.
  - destruct (sys_clients S !! s) as [c|]; [|injection Hs as <-; by apply (Hsame S)].
    destruct (decide (s ∈ sys_timers S)); [|injection Hs as <-; by apply (Hsame S)].
    pose proof (join_tick_ident c (globals (sys_world S))) as (Hu & Hn & Hp).
    pose proof (join_tick_no_pending c (globals (sys_world S))) as Hnp.
    destruct (join_tick c (globals (sys_world S))) as [g out]. simpl in *.
    injection Hs as <-. simpl. exists (tag s out).
    repeat split; auto.
    + discriminate.
    + by destruct Hnp.
    + destruct Hnp as [_ Hf]; [assumption|].
      apply (tag_forall s out (fun m => m.1 ≠ "EGRQ")).
      eapply Forall_impl; [exact Hf|]. by intros m [].
  - destruct (sys_clients S !! s) as [c|]; [|injection Hs as <-; by apply (Hsame S)].
    injection Hs as <-. exists []. simpl. rewrite app_nil_r. repeat split; auto.
Qed.

Lemma sys_step_identity S e S' :
  sys_step S e = Some S' →
  (userId (globals (sys_world S')), nickname (globals (sys_world S'))) =
  join_identity_step S e (userId (globals (sys_world S)), nickname (globals (sys_world S))).
Proof.
  intros Hs. destruct (is_egam e) eqn:He.
  - destruct e as [|s cmd o msg| | |]; try discriminate. destruct cmd; try discriminate.
    simpl in *. destruct (sys_clients S !! s) as [c|]; [|by injection Hs as <-].
    unfold EGAM in Hs. destruct (IsActive c); simpl in Hs; [|by injection Hs as <-].
    destruct (o_prepare_ok o); [|discriminate]. simpl in Hs.
    destruct (o_lookup o (mget msg "R-U-accid")) as [[p n]|]; injection Hs as <-; done.
  - destruct (sys_step_not_egam S e S' He Hs) as (out & _ & Hu & Hn & _).
    rewrite Hu, Hn. destruct e as [|s cmd o msg| | |]; try done.
    destruct cmd; done.
Qed.

Lemma sys_run_identity S tr S' :
  sys_run S tr = Some S' →
  (userId (globals (sys_world S')), nickname (globals (sys_world S'))) =
  run_identity S tr (userId (globals (sys_world S)), nickname (globals (sys_world S))).
Proof.
  revert S. induction tr as [|e tr IH]; intros S Hr; cbn [sys_run run_identity] in *.
  - by injection Hr as <-.
  - destruct (sys_step S e) as [S1|] eqn:Hs; [|discriminate].
    rewrite (IH S1 Hr). f_equal. by apply sys_step_identity.
Qed.

Lemma run_identity_no_egam S tr id :
  Forall (fun e => is_egam e = false) tr → run_identity S tr id = id.
Proof.
  revert S. induction tr as [|e tr IH]; intros S Hf; cbn [run_identity]; [done|].
  apply Forall_cons in Hf as [He Hf].
  destruct (sys_step S e) as [S1|]; [|done].
  assert (join_identity_step S e id = id) as ->; [|by apply IH].
  destruct e as [|s cmd o msg| | |]; try done. by destruct cmd.
Qed.

(** ** The user identity answered by USER *)

(** C10 (counterexample): client session 0 joins with account 42, whose
    lookup finds the nickname Alice, then with account 43, whose lookup
    finds no row; USER then answers NAME Alice with CID 43, a nickname the
    last join request did not set. *)
Lemma user_name_from_earlier_join :
  match sys_run sys0
    [EvConnect 0 (mkClient true false (Some "10.0.0.3") "");
     EvCmd 0 cEGAM (mkOracle true (fun _ => Some ("7", "Alice")) (fun _ => None) None 0 "")
       (pkt [("TID", "1"); ("R-U-accid", "42")]);
     EvCmd 0 cEGAM (mkOracle true (fun _ => None) (fun _ => None) None 0 "")
       (pkt [("TID", "2"); ("R-U-accid", "43")]);
     EvCmd 0 cUSER (mkOracle true (fun _ => None) (fun _ => None) None 0 "")
       (pkt [("TID", "3")])] with
  | Some S1 => last (sys_out S1) = Some (0, ("USER", pkt [("TID", "3"); ("NAME", "Alice"); ("CID", "43")]))
  | None => False
  end.
Proof. vm_compute. reflexivity. Qed.

(** C10 (amended): after any run of the theater from its start, USER on an
    active session answers NAME and CID from the process-wide identity: the
    account id of the last processed join request (EGAM) of any session,
    and the nickname of the last such request whose lookup found a row.
    While no join request has been processed, both are empty. *)
Theorem user_answer_from_last_join tr S' s c o msg :
  sys_run sys0 tr = Some S' →
  sys_clients S' !! s = Some c → IsActive c = true →
  ∃ S'', sys_step S' (EvCmd s cUSER o msg) = Some S'' ∧
    sys_world S'' = sys_world S' ∧
    sys_out S'' = (sys_out S' ++
      [(s, ("USER", pkt [("TID", mget msg "TID");
                         ("NAME", (run_identity sys0 tr ("", "")).2);
                         ("CID", (run_identity sys0 tr ("", "")).1)]))])%list ∧
    (Forall (fun e => is_egam e = false) tr → run_identity sys0 tr ("", "") = ("", "")).
Proof.
  intros Hr Hc Ha.
  pose proof (sys_run_identity sys0 tr S' Hr) as Hid.
  change (userId (globals (sys_world sys0))) with "" in Hid.
  change (nickname (globals (sys_world sys0))) with "" in Hid.
  rewrite <- Hid. simpl. rewrite Hc. unfold USER. rewrite Ha. simpl.
  eexists. split; [reflexivity|]. simpl. split; [done|]. split; [done|].
  intros Hf. rewrite Hid. by apply run_identity_no_egam.
Qed.

Lemma user_answer_from_last_join_witness :
  let tr := [EvConnect 0 (mkClient true false (Some "10.0.0.3") "");
             EvCmd 0 cEGAM (mkOracle true (fun _ => Some ("7", "Alice")) (fun _ => None) None 0 "")
               (pkt [("TID", "1"); ("R-U-accid", "42")])] in
  let S' := default sys0 (sys_run sys0 tr) in
  let o := mkOracle true (fun _ => None) (fun _ => None) None 0 "" in
  let msg := pkt [("TID", "3")] in
  ∃ S'', sys_step S' (EvCmd 0 cUSER o msg) = Some S'' ∧
    sys_world S'' = sys_world S' ∧
    sys_out S'' = (sys_out S' ++
      [(0, ("USER", pkt [("TID", mget msg "TID");
                         ("NAME", (run_identity sys0 tr ("", "")).2);
                         ("CID", (run_identity sys0 tr ("", "")).1)]))])%list ∧
    (Forall (fun e => is_egam e = false) tr → run_identity sys0 tr ("", "") = ("", "")).
Proof.
  intros tr S' o msg.
  apply (user_answer_from_last_join tr S' 0 (mkClient true false (Some "10.0.0.3") "") o msg);
    vm_compute; reflexivity.
Defined.

(** ** Join requests and the EGRQ of the join poll *)

Lemma sys_step_egam S s c o msg S1 :
  sys_clients S !! s = Some c → IsActive c = true →
  sys_step S (EvCmd s cEGAM o msg) = Some S1 →
  wantsToJoin (globals (sys_world S1)) = true ∧
  userId (globals (sys_world S1)) = mget msg "R-U-accid" ∧
  (∀ p n, o_lookup o (mget msg "R-U-accid") = Some (p, n) →
     pid (globals (sys_world S1)) = p ∧ nickname (globals (sys_world S1)) = n).
Proof.
  intros Hc Ha Hs. simpl in Hs. rewrite Hc in Hs. unfold EGAM in Hs. rewrite Ha in Hs.
  simpl in Hs. destruct (o_prepare_ok o); [|discriminate]. simpl in Hs.
  destruct (o_lookup o (mget msg "R-U-accid")) as [[p0 n0]|];
    injection Hs as <-; simpl; (split; [done|]); (split; [done|]); intros p1 n1 Hl; by simplify_eq.
Qed.

Lemma sys_run_quiet S tr S' :
  Forall (fun e => is_egam e = false ∧ is_join_tick e = false) tr →
  sys_run S tr = Some S' →
  wantsToJoin (globals (sys_world S')) = wantsToJoin (globals (sys_world S)) ∧
  userId (globals (sys_world S')) = userId (globals (sys_world S)) ∧
  nickname (globals (sys_world S')) = nickname (globals (sys_world S)) ∧
  pid (globals (sys_world S')) = pid (globals (sys_world S)).
Proof.
  revert S. induction tr as [|e tr IH]; intros S Hf Hr; cbn [sys_run] in Hr.
  - by injection Hr as <-.
  - apply Forall_cons in Hf as [[He Hj] Hf].
    destruct (sys_step S e) as [S1|] eqn:Hs; [|discriminate].
    destruct (sys_step_not_egam S e S1 He Hs) as (out & _ & Hu & Hn & Hp & Hw & _).
    destruct (IH S1 Hf Hr) as (Hw' & Hu' & Hn' & Hp').
    rewrite Hw', Hu', Hn', Hp', Hu, Hn, Hp, (Hw Hj). done.
Qed.

Lemma sys_run_no_egrq S tr S' :
  wantsToJoin (globals (sys_world S)) = false →
  Forall (fun e => is_egam e = false) tr →
  sys_run S tr = Some S' →
  ∃ out, sys_out S' = (sys_out S ++ out)%list ∧ Forall (fun m => m.2.1 ≠ "EGRQ") out.
Proof.
  revert S. induction tr as [|e tr IH]; intros S Hw Hf Hr; cbn [sys_run] in Hr.
  - injection Hr as <-. exists []. by rewrite app_nil_r.
  - apply Forall_cons in Hf as [He Hf].
    destruct (sys_step S e) as [S1|] eqn:Hs; [|discriminate].
    destruct (sys_step_not_egam S e S1 He Hs) as (out & Ho & _ & _ & _ & _ & Hnp).
    destruct (Hnp Hw) as [Hw1 Hout].
    destruct (IH S1 Hw1 Hf Hr) as (out' & Ho' & Hout').
    exists (out ++ out')%list. rewrite Ho', Ho, app_assoc. split; [done|].
    by apply Forall_app.
Qed.

Lemma sys_step_server_tick S s v :
  sys_clients S !! s = Some v → IsActive v = true → IsServer v = true →
  s ∈ sys_timers S → wantsToJoin (globals (sys_world S)) = true →
  ∃ S', sys_step S (EvJoinTick s) = Some S' ∧
    sys_out S' = (sys_out S ++ [(s, ("EGRQ", egrq_packet (globals (sys_world S))))])%list ∧
    wantsToJoin (globals (sys_world S')) = false.
Proof.
  intros Hv Ha Hs Ht Hw. simpl. rewrite Hv. rewrite decide_True by done.
  destruct (join_tick_server v (globals (sys_world S)) Ha Hs Hw) as [Ho Hw'].
  destruct (join_tick v (globals (sys_world S))) as [g out]. simpl in *. subst out.
  eexists. split; [reflexivity|]. done.
Qed.

(** C2 (counterexample): client session 0 sends EGAM while two server
    sessions 1 and 2 run their join polls. The flag EGAM raises is one
    process-wide variable: the poll of server 2 takes it and sends the
    EGRQ, and the next poll of server 1 sends none. *)
Lemma egrq_taken_by_other_server :
  match sys_run sys0
    [EvConnect 0 (mkClient true false (Some "10.0.0.3") "");
     EvConnect 1 (mkClient true true (Some "10.0.0.1") "");
     EvConnect 2 (mkClient true true (Some "10.0.0.2") "");
     EvCmd 0 cEGAM (mkOracle true (fun _ => Some ("7", "Alice")) (fun _ => None) None 0 "")
       (pkt [("TID", "1"); ("R-U-accid", "42")]);
     EvJoinTick 2; EvJoinTick 1] with
  | Some S1 => map (fun m => (m.1, m.2.1)) (sys_out S1) = [(0, "EGAM"); (2, "EGRQ")]
  | None => False
  end.
Proof. vm_compute. reflexivity. Qed.

Lemma overlapping_polls_both_send g s s' :
  wantsToJoin g = true →
  map (fun m => (m.1, m.2.1)) (poll_sched [(s, PStart); (s', PStart)] [0; 1; 0; 1] g).2 =
    [(s, "EGRQ"); (s', "EGRQ")].
Proof. intros Hw. simpl. rewrite Hw. reflexivity. Qed.

Lemma sys_step_egam_none S s c o msg S1 :
  sys_clients S !! s = Some c → IsActive c = true →
  sys_step S (EvCmd s cEGAM o msg) = Some S1 →
  o_lookup o (mget msg "R-U-accid") = None →
  nickname (globals (sys_world S1)) = nickname (globals (sys_world S)) ∧
  pid (globals (sys_world S1)) = pid (globals (sys_world S)).
Proof.
  intros Hc Ha Hs Hl. simpl in Hs. rewrite Hc in Hs. unfold EGAM in Hs. rewrite Ha in Hs.
  simpl in Hs. destruct (o_prepare_ok o); [|discriminate]. simpl in Hs.
  rewrite Hl in Hs. by injection Hs as <-.
Qed.

(** C2 (amended): the pending-join flag EGAM raises is one process-wide
    variable, and a server's join poll tests and clears it without
    synchronisation. After an EGAM on an active client session (with the
    statement prepared) and any events that are neither join requests nor
    join polls, the next join poll of ANY active server session with
    running timers, run as one step ([join_tick]), sends exactly one EGRQ,
    on that session; it carries the account id of the request as UID, the
    ticket 2018751182, and, when the lookup found a row, its nickname as
    NAME and its player id as PID; when it found none, NAME and PID are
    the values they had before the EGAM. From then on, until the next
    EGAM, no session is sent an EGRQ by polls that do not overlap. Two
    polls that both test the flag before either clears it ([poll_sched])
    both send an EGRQ. *)
Theorem egam_then_server_poll S s_c c o msg S1 tr S2 s_v v :
  sys_clients S !! s_c = Some c → IsActive c = true →
  sys_step S (EvCmd s_c cEGAM o msg) = Some S1 →
  Forall (fun e => is_egam e = false ∧ is_join_tick e = false) tr →
  sys_run S1 tr = Some S2 →
  sys_clients S2 !! s_v = Some v → IsActive v = true → IsServer v = true →
  s_v ∈ sys_timers S2 →
  ∃ S3, sys_step S2 (EvJoinTick s_v) = Some S3 ∧
    sys_out S3 = (sys_out S2 ++ [(s_v, ("EGRQ", egrq_packet (globals (sys_world S2))))])%list ∧
    mget (egrq_packet (globals (sys_world S2))) "UID" = mget msg "R-U-accid" ∧
    mget (egrq_packet (globals (sys_world S2))) "TICKET" = "2018751182" ∧
    (∀ p n, o_lookup o (mget msg "R-U-accid") = Some (p, n) →
       mget (egrq_packet (globals (sys_world S2))) "NAME" = n ∧
       mget (egrq_packet (globals (sys_world S2))) "PID" = p) ∧
    (o_lookup o (mget msg "R-U-accid") = None →
       mget (egrq_packet (globals (sys_world S2))) "NAME" = nickname (globals (sys_world S)) ∧
       mget (egrq_packet (globals (sys_world S2))) "PID" = pid (globals (sys_world S))) ∧
    (∀ tr' S4, Forall (fun e => is_egam e = false) tr' → sys_run S3 tr' = Some S4 →
       ∃ out, sys_out S4 = (sys_out S3 ++ out)%list ∧ Forall (fun m => m.2.1 ≠ "EGRQ") out) ∧
    (∀ s s', map (fun m => (m.1, m.2.1))
               (poll_sched [(s, PStart); (s', PStart)] [0; 1; 0; 1] (globals (sys_world S2))).2 =
             [(s, "EGRQ"); (s', "EGRQ")]).
Proof.
  intros Hc Ha Hs1 Hq Hr Hv Hva Hvs Ht.
  destruct (sys_step_egam S s_c c o msg S1 Hc Ha Hs1) as (Hw1 & Hu1 & Hl1).
  destruct (sys_run_quiet S1 tr S2 Hq Hr) as (Hw & Hu & Hn & Hp).
  destruct (sys_step_server_tick S2 s_v v Hv Hva Hvs Ht ltac:(congruence))
    as (S3 & Hs3 & Ho3 & Hw3).
  exists S3. split; [done|]. split; [done|].
  split; [|split; [reflexivity|split; [|split; [|split]]]].
  - change (userId (globals (sys_world S2)) = mget msg "R-U-accid"). congruence.
  - intros p n Hl. destruct (Hl1 p n Hl) as [Hp1 Hn1].
    change (nickname (globals (sys_world S2)) = n ∧ pid (globals (sys_world S2)) = p).
    split; congruence.
  - intros Hl. destruct (sys_step_egam_none S s_c c o msg S1 Hc Ha Hs1 Hl) as [Hn1 Hp1].
    change (nickname (globals (sys_world S2)) = nickname (globals (sys_world S)) ∧
            pid (globals (sys_world S2)) = pid (globals (sys_world S))).
    split; congruence.
  - intros tr' S4 Hf Hr'. by apply (sys_run_no_egrq S3 tr' S4).
  - intros s s'. apply overlapping_polls_both_send. congruence.
Qed.

Lemma egam_then_server_poll_witness :
  let c := mkClient true false (Some "10.0.0.3") "" in
  let v := mkClient true true (Some "10.0.0.1") "" in
  let S := default sys0 (sys_run sys0 [EvConnect 0 c; EvConnect 1 v]) in
  let o := mkOracle true (fun _ => Some ("7", "Alice")) (fun _ => None) None 0 "" in
  let msg := pkt [("TID", "1"); ("R-U-accid", "42")] in
  let S1 := default sys0 (sys_step S (EvCmd 0 cEGAM o msg)) in
  let tr := [EvHeartTick 0; EvCmd 1 cUBRA o (pkt [("TID", "2")])] in
  let S2 := default sys0 (sys_run S1 tr) in
  ∃ S3, sys_step S2 (EvJoinTick 1) = Some S3 ∧
    sys_out S3 = (sys_out S2 ++ [(1, ("EGRQ", egrq_packet (globals (sys_world S2))))])%list ∧
    mget (egrq_packet (globals (sys_world S2))) "UID" = mget msg "R-U-accid" ∧
    mget (egrq_packet (globals (sys_world S2))) "TICKET" = "2018751182" ∧
    (∀ p n, o_lookup o (mget msg "R-U-accid") = Some (p, n) →
       mget (egrq_packet (globals (sys_world S2))) "NAME" = n ∧
       mget (egrq_packet (globals (sys_world S2))) "PID" = p) ∧
    (o_lookup o (mget msg "R-U-accid") = None →
       mget (egrq_packet (globals (sys_world S2))) "NAME" = nickname (globals (sys_world S)) ∧
       mget (egrq_packet (globals (sys_world S2))) "PID" = pid (globals (sys_world S))) ∧
    (∀ tr' S4, Forall (fun e => is_egam e = false) tr' → sys_run S3 tr' = Some S4 →
       ∃ out, sys_out S4 = (sys_out S3 ++ out)%list ∧ Forall (fun m => m.2.1 ≠ "EGRQ") out) ∧
    (∀ s s', map (fun m => (m.1, m.2.1))
               (poll_sched [(s, PStart); (s', PStart)] [0; 1; 0; 1] (globals (sys_world S2))).2 =
             [(s, "EGRQ"); (s', "EGRQ")]).
Proof.
  intros c v S o msg S1 tr S2.
  apply (egam_then_server_poll S 0 c o msg S1 tr S2 1 v);
    [vm_compute; reflexivity | reflexivity | vm_compute; reflexivity
    | repeat constructor | vm_compute; reflexivity | vm_compute; reflexivity
    | reflexivity | reflexivity | vm_compute; set_solver].
Defined.



(** ** Heartbeat *)

Lemma pings_to_app s l1 l2 : pings_to s (l1 ++ l2) = (pings_to s l1 ++ pings_to s l2)%list.
Proof. apply filter_app. Qed.

Lemma pings_to_tag_nil s s' out :
  (s' = s → Forall (fun m => m.1 ≠ "PING") out) → pings_to s (tag s' out) = [].
Proof.
  intros H. induction out as [|m out IH]; [done|]. unfold pings_to, tag in *.
  cbn [map]. rewrite filter_cons_False.
  - apply IH. intros E. specialize (H E). by apply Forall_cons in H as [_ ?].
  - intros [E1 E2]. cbn in E1, E2. specialize (H E1). by apply Forall_cons in H as [? _].
Qed.

Lemma pings_to_heart_tick s c :
  pings_to s (tag s (heart_tick c)) = if IsActive c then [(s, ping_msg)] else [].
Proof.
  unfold heart_tick. destruct (IsActive c); [|done]. unfold pings_to, tag. cbn [negb map].
  rewrite filter_cons_True by done. done.
Qed.

Ltac unchanged_session Hs c :=
  injection Hs as <-; exists c, []; cbn [sys_out]; rewrite app_nil_r;
  repeat split; try done; try (case_decide; subst; (done || congruence)).

(** What one step does to a session [s] that is not reconnected: the
    session stays known with its timers, turns inactive only when it is
    closed, and is sent a PING exactly when its heartbeat fires while it
    is active. *)
Lemma sys_step_session S e S1 s c :
  sys_clients S !! s = Some c → s ∈ sys_timers S → (∀ c', e ≠ EvConnect s c') →
  sys_step S e = Some S1 →
  ∃ c1 out, sys_clients S1 !! s = Some c1 ∧ s ∈ sys_timers S1 ∧
    sys_out S1 = (sys_out S ++ out)%list ∧
    IsActive c1 = match e with
                  | EvClose s' => if decide (s = s') then false else IsActive c
                  | _ => IsActive c
                  end ∧
    pings_to s out = match e with
                     | EvHeartTick s' =>
                         if decide (s = s') then (if IsActive c then [(s, ping_msg)] else [])
                         else []
                     | _ => []
                     end.
Proof.
  intros Hc Ht Hn Hs.
  destruct e as [s' c'|s' cmd o msg|s'|s'|s']; simpl in Hs.
  - injection Hs as <-. assert (s' ≠ s) by (intros ->; by apply (Hn c')).
    exists c, []. simpl. rewrite lookup_insert_ne by done. rewrite app_nil_r.
    repeat split; try done. destruct (IsActive c'); set_solver.
  - destruct (theater_cmd cmd) eqn:Htc; simpl in Hs;
      [|unchanged_session Hs c].
    destruct (sys_clients S !! s') as [c'|] eqn:Hc'; [|unchanged_session Hs c].
    pose proof (handle_active cmd o c' msg (sys_world S)) as Ha.
    pose proof (handle_sent_names cmd o c' msg (sys_world S) Htc) as Hnm.
    destruct (handle cmd o c' msg (sys_world S)) as [w c'' out|]; [|discriminate].
    injection Hs as <-. simpl in *. exists (if decide (s = s') then c'' else c), (tag s' out).
    repeat split; try done.
    + case_decide; [subst; by rewrite lookup_insert_eq | by rewrite lookup_insert_ne].
    + case_decide; [subst; congruence | done].
    + apply pings_to_tag_nil. intros _. eapply Forall_impl; [exact Hnm|]. by intros m [].
  - destruct (sys_clients S !! s') as [c'|] eqn:Hc'; [|unchanged_session Hs c].
    destruct (decide (s' ∈ sys_timers S)); [|unchanged_session Hs c].
    injection Hs as <-. exists c, (tag s' (heart_tick c')). simpl. repeat split; try done.
    case_decide.
    + subst. rewrite Hc in Hc'. injection Hc' as <-. apply pings_to_heart_tick.
    + apply pings_to_tag_nil. congruence.
  - destruct (sys_clients S !! s') as [c'|] eqn:Hc'; [|unchanged_session Hs c].
    destruct (decide (s' ∈ sys_timers S)); [|unchanged_session Hs c].
    pose proof (join_tick_no_ping c' (globals (sys_world S))) as Hnp.
    destruct (join_tick c' (globals (sys_world S))) as [g out]. simpl in *.
    injection Hs as <-. exists c, (tag s' out). simpl. repeat split; try done.
    by apply pings_to_tag_nil.
  - destruct (sys_clients S !! s') as [c'|] eqn:Hc'.
    + injection Hs as <-. exists (if decide (s = s') then deactivate c else c), []. simpl.
      rewrite app_nil_r. repeat split; try done.
      * case_decide; [subst; rewrite Hc in Hc'; injection Hc' as <-; by rewrite lookup_insert_eq
                     | by rewrite lookup_insert_ne].
      * by case_decide.
    + unchanged_session Hs c.
Qed.

(** C8: take a known session [s] whose heartbeat was started, and any
    run of events that does not reconnect [s]. If the session was active,
    the PINGs it is sent are exactly one [("PING", TID "0")] per
    heartbeat tick (the 10 s ticker firing) before its first close, and
    none afterwards. If it was already inactive, it is sent no PING. *)
Theorem heartbeat_ping_until_close S tr S' s c :
  sys_clients S !! s = Some c → s ∈ sys_timers S →
  (∀ c', EvConnect s c' ∉ tr) →
  sys_run S tr = Some S' →
  ∃ out, sys_out S' = (sys_out S ++ out)%list ∧
    pings_to s out = replicate (if IsActive c then ticks_before_close s tr else 0) (s, ping_msg).
Proof.
  revert S c. induction tr as [|e tr IH]; intros S c Hc Ht Hn Hr; cbn [sys_run] in Hr.
  - injection Hr as <-. exists []. rewrite app_nil_r. split; [done|]. by destruct (IsActive c).
  - destruct (sys_step S e) as [S1|] eqn:Hs; [|discriminate].
    assert (∀ c', e ≠ EvConnect s c') as He.
    { intros c' ->. apply (Hn c'). by left. }
    destruct (sys_step_session S e S1 s c Hc Ht He Hs) as (c1 & out1 & Hc1 & Ht1 & Ho1 & Ha1 & Hp1).
    destruct (IH S1 c1 Hc1 Ht1 ltac:(intros c' Hin; apply (Hn c'); by right) Hr)
      as (out2 & Ho2 & Hp2).
    exists (out1 ++ out2)%list. rewrite Ho2, Ho1, app_assoc. split; [done|].
    rewrite pings_to_app, Hp1, Hp2, Ha1.
    destruct e as [s' c'|s' cmd o msg|s'|s'|s']; cbn [ticks_before_close]; try done.
    + case_decide; [|done]. by destruct (IsActive c).
    + case_decide; [by destruct (IsActive c)|done].
Qed.

Lemma heartbeat_ping_until_close_witness :
  let c := mkClient true false (Some "10.0.0.3") "" in
  let S := default sys0 (sys_run sys0 [EvConnect 0 c; EvConnect 1 c]) in
  let tr := [EvHeartTick 0; EvHeartTick 1;
             EvCmd 0 cUBRA (mkOracle true (fun _ => None) (fun _ => None) None 0 "") (pkt [("TID", "2")]);
             EvHeartTick 0; EvClose 0; EvHeartTick 0] in
  let S' := default sys0 (sys_run S tr) in
  ∃ out, sys_out S' = (sys_out S ++ out)%list ∧
    pings_to 0 out = replicate (if IsActive c then ticks_before_close 0 tr else 0) (0, ping_msg).
Proof.
  intros c S tr S'.
  apply (heartbeat_ping_until_close S tr S' 0 c);
    [vm_compute; reflexivity | vm_compute; set_solver
    | intros c' Hin; repeat (apply elem_of_cons in Hin as [Hin|Hin]; [discriminate|]);
      by apply elem_of_nil in Hin
    | vm_compute; reflexivity].
Defined.

(** ** Reading back [Itoa] with [Atoi] *)

Lemma Atoi_Itoa_int z : (int_min <= z <= int_max)%Z → Atoi (Itoa z) = z.
Proof.
  intros Hz. destruct (decide (0 <= z)%Z).
  - apply Atoi_Itoa. lia.
  - unfold Itoa. rewrite decide_True by lia. cbn [Atoi]. unfold atoi_digits.
    rewrite uint_of_str_of_uint, DecimalN.Unsigned.of_to, Z2N.id by lia.
    unfold clamp64, int_min, int_max in *. lia.
Qed.

(** ** Quote stripping *)

Lemma string_length_app (t s : string) :
  String.length (t ++ s) = String.length t + String.length s.
Proof. induction t; simpl; auto. Qed.

Lemma string_get_app_end (t : string) (ch : Ascii.ascii) :
  String.get (String.length t) (t ++ String ch "") = Some ch.
Proof. induction t; simpl; auto. Qed.

Lemma substring_app_prefix (t s : string) :
  String.substring 0 (String.length t) (t ++ s) = t.
Proof. induction t; simpl; [by destruct s|]. by rewrite IHt. Qed.

(** The quote stripping of CGAM and of the second UGAM draft removes one
    enclosing pair of double quotes, and leaves a value that neither
    starts nor ends with a double quote unchanged. *)
Theorem strip_quotes_spec (t v : string) :
  strip_quotes (String dquote (t ++ String dquote "")) = t ∧
  (String.get 0 v ≠ Some dquote → String.get (String.length v - 1) v ≠ Some dquote →
   strip_quotes v = v).
Proof.
  split.
  - unfold strip_quotes. rewrite decide_True by done.
    rewrite string_length_app. simpl. replace (String.length t + 1 - 1) with (String.length t) by lia.
    rewrite string_get_app_end, decide_True by done.
    apply substring_app_prefix.
  - intros H0 H1. unfold strip_quotes.
    assert (match v with
            | String c r => if decide (c = dquote) then r else v
            | EmptyString => v
            end = v) as ->.
    { destruct v as [|c r]; [done|]. rewrite decide_False; [done|]. intros ->. by apply H0. }
    destruct (String.get (String.length v - 1) v) as [c|] eqn:E; [|done].
    rewrite decide_False; [done|]. intros ->. by apply H1.
Qed.

Lemma strip_quotes_spec_witness :
  strip_quotes (String dquote ("abc" ++ String dquote "")) = "abc" ∧
  (String.get 0 "abc" ≠ Some dquote → String.get (String.length "abc" - 1) "abc" ≠ Some dquote →
   strip_quotes "abc" = "abc").
Proof. apply (strip_quotes_spec "abc" "abc"). Defined.

(** ** Edges of the lobby counter *)

Lemma Atoi_unsigned v d : uint_of_str v = Some d → Atoi v = atoi_digits false v.
Proof.
  intros H. destruct v as [|ch r]; [reflexivity|]. simpl in H.
  destruct (uint_of_str r); [|discriminate].
  repeat (case_decide; [subst; reflexivity|]). discriminate.
Qed.

(** When the [Lobbies] counter is missing (the store was not set up by
    [New], or the key was removed), CGAM assigns lobby id 1 and sets the
    counter to 1. *)
Theorem cgam_missing_counter ip msg st :
  rs_get lobbies_ns "Lobbies" st = "" →
  (cgam_call ip msg st).2 = 1%Z ∧
  (cgam_call ip msg st).1 = cgam_commit 1 (cgam_write 1 ip msg st) ∧
  rs_get lobbies_ns "Lobbies" (cgam_call ip msg st).1 = "1" ∧
  rs_get (game_ns "1") "LID" (cgam_call ip msg st).1 = "1".
Proof.
  intros H. assert (cgam_next_lid st = 1%Z) as Hn.
  { unfold cgam_next_lid. rewrite H. reflexivity. }
  unfold cgam_call. rewrite Hn. simpl. split; [done|]. split; [done|]. split.
  - unfold cgam_commit. apply rs_get_rs_set.
  - unfold cgam_commit. rewrite rs_get_set_other_ns; [|apply (game_ns_not_config 1)].
    unfold cgam_write. rewrite !rs_get_set_other_key by done. apply rs_get_rs_set.
Qed.

Lemma cgam_missing_counter_witness :
  (cgam_call "10.0.0.1" (pkt [("TID", "1")]) ∅).2 = 1%Z ∧
  (cgam_call "10.0.0.1" (pkt [("TID", "1")]) ∅).1 =
    cgam_commit 1 (cgam_write 1 "10.0.0.1" (pkt [("TID", "1")]) ∅) ∧
  rs_get lobbies_ns "Lobbies" (cgam_call "10.0.0.1" (pkt [("TID", "1")]) ∅).1 = "1" ∧
  rs_get (game_ns "1") "LID" (cgam_call "10.0.0.1" (pkt [("TID", "1")]) ∅).1 = "1".
Proof. apply cgam_missing_counter. reflexivity. Defined.

(** When the counter holds a decimal at or above the largest Go [int]
    (Atoi clamps larger values to it), [gameLid++] wraps: CGAM assigns the
    negative id -9223372036854775808, writes the record under that id and
    stores it as the counter. *)
Theorem cgam_counter_overflow ip msg st v d :
  rs_get lobbies_ns "Lobbies" st = v → uint_of_str v = Some d →
  (int_max <= Z.of_N (N.of_uint d))%Z →
  (cgam_call ip msg st).2 = int_min ∧
  rs_get lobbies_ns "Lobbies" (cgam_call ip msg st).1 = "-9223372036854775808" ∧
  rs_get (game_ns "-9223372036854775808") "LID" (cgam_call ip msg st).1 = "-9223372036854775808".
Proof.
  intros Hv Hd Hbig. assert (cgam_next_lid st = int_min) as Hn.
  { unfold cgam_next_lid. rewrite Hv, (Atoi_unsigned v d Hd). unfold atoi_digits.
    rewrite Hd. unfold clamp64. rewrite Z.min_l by done.
    rewrite Z.max_r by (unfold int_min, int_max in *; lia).
    unfold wrap64, int_min, int_max. reflexivity. }
  assert (Itoa int_min = "-9223372036854775808") as Hi by (vm_compute; reflexivity).
  unfold cgam_call. rewrite Hn. simpl. split; [done|]. split.
  - unfold cgam_commit. rewrite rs_get_rs_set. done.
  - unfold cgam_commit. rewrite <- Hi.
    rewrite rs_get_set_other_ns; [|apply game_ns_not_config].
    unfold cgam_write. rewrite !rs_get_set_other_key by done. apply rs_get_rs_set.
Qed.

Lemma cgam_counter_overflow_witness :
  (cgam_call "10.0.0.1" (pkt [("TID", "1")]) (rs_set lobbies_ns "Lobbies" "9223372036854775807" ∅)).2 = int_min ∧
  rs_get lobbies_ns "Lobbies"
    (cgam_call "10.0.0.1" (pkt [("TID", "1")]) (rs_set lobbies_ns "Lobbies" "9223372036854775807" ∅)).1
    = "-9223372036854775808" ∧
  rs_get (game_ns "-9223372036854775808") "LID"
    (cgam_call "10.0.0.1" (pkt [("TID", "1")]) (rs_set lobbies_ns "Lobbies" "9223372036854775807" ∅)).1
    = "-9223372036854775808".
Proof.
  apply (cgam_counter_overflow _ _ _ "9223372036854775807"
           (default Decimal.Nil (uint_of_str "9223372036854775807")));
    [reflexivity | vm_compute; reflexivity | vm_compute; congruence].
Defined.
(** ** Log files *)

Lemma string_app_assoc (a b c : string) : a ++ (b ++ c) = (a ++ b) ++ c.
Proof. induction a as [|ch a IH]; [done|]. exact (f_equal (String ch) IH). Qed.

Lemma log_path_unfold q t k : log_path q t k = log_dir q t ++ String "/"%char k.
Proof. reflexivity. Qed.

Lemma append_suffix_differ (x y : string) :
  x ++ "/request" ≠ y ++ "/answer".
Proof.
  intros E.
  pose proof (f_equal String.length E) as L. rewrite !string_length_app in L. simpl in L.
  pose proof (f_equal (String.get (String.length x + 7)) E) as G.
  rewrite Nat.add_comm in G.
  rewrite <- (append_correct2 x "/request" 7) in G.
  replace (7 + String.length x) with (6 + String.length y) in G by lia.
  rewrite <- (append_correct2 y "/answer" 6) in G. discriminate.
Qed.

Lemma log_path_kinds_differ q t q' t' : log_path q t "request" ≠ log_path q' t' "answer".
Proof.
  rewrite !log_path_unfold. apply append_suffix_differ.
Qed.

(** Logging a request and then any answer: the answer file never lands
    on the request file (their names end in [/request] and [/answer]),
    so both are kept. *)
Theorem request_log_survives_answer q msg ty ans fs fs1 fs2 :
  LogCommand true q msg fs = Some fs1 → logAnswer true ty ans fs1 = Some fs2 →
  fs2 !! log_path q (mget msg "TXN") "request" = Some msg ∧
  fs2 !! log_path ty (mget ans "TXN") "answer" = Some ans.
Proof.
  intros H1 H2. injection H1 as <-. injection H2 as <-. split.
  - rewrite lookup_insert_ne by apply not_eq_sym, log_path_kinds_differ.
    by rewrite lookup_insert_eq.
  - by rewrite lookup_insert_eq.
Qed.

Lemma request_log_survives_answer_witness :
  let msg := pkt [("TXN", "Hello"); ("TID", "1")] in
  let ans := pkt [("TID", "1")] in
  let fs1 := <[log_path "CONN" (mget msg "TXN") "request" := msg]> (∅ : files) in
  let fs2 := <[log_path "CONN" (mget ans "TXN") "answer" := ans]> fs1 in
  fs2 !! log_path "CONN" (mget msg "TXN") "request" = Some msg ∧
  fs2 !! log_path "CONN" (mget ans "TXN") "answer" = Some ans.
Proof.
  intros msg ans fs1 fs2.
  apply (request_log_survives_answer "CONN" msg "CONN" ans ∅ fs1 fs2); reflexivity.
Defined.

(** An answer packet without a [TXN] key is logged to
    ./commands/<type>./answer: answers of one type without [TXN] share
    that file, and each one replaces the previous one. *)
Theorem answers_without_txn_overwrite ty p1 p2 fs fs1 fs2 :
  p1 !! "TXN" = None → p2 !! "TXN" = None →
  logAnswer true ty p1 fs = Some fs1 → logAnswer true ty p2 fs1 = Some fs2 →
  fs1 !! ("./commands/" ++ ty ++ "./answer") = Some p1 ∧
  fs2 !! ("./commands/" ++ ty ++ "./answer") = Some p2.
Proof.
  intros H1 H2 E1 E2. injection E1 as <-. injection E2 as <-.
  unfold mget. rewrite H1, H2. simpl.
  assert (log_path ty "" "answer" = "./commands/" ++ ty ++ "./answer") as ->.
  { unfold log_path, log_dir. rewrite <- !string_app_assoc. reflexivity. }
  split; by rewrite lookup_insert_eq.
Qed.

Lemma answers_without_txn_overwrite_witness :
  let p1 := pkt [("TID", "1")] in
  let p2 := pkt [("TID", "2")] in
  let fs1 := <[log_path "UBRA" (mget p1 "TXN") "answer" := p1]> (∅ : files) in
  let fs2 := <[log_path "UBRA" (mget p2 "TXN") "answer" := p2]> fs1 in
  fs1 !! ("./commands/" ++ "UBRA" ++ "./answer") = Some p1 ∧
  fs2 !! ("./commands/" ++ "UBRA" ++ "./answer") = Some p2.
Proof.
  intros p1 p2 fs1 fs2.
  apply (answers_without_txn_overwrite "UBRA" p1 p2 ∅ fs1 fs2); reflexivity.
Defined.

(** The log directory joins the query and [TXN] with a dot, so distinct
    requests can share a file: a request of query q.t with [TXN] u and a
    request of query q with [TXN] t.u are logged to the same file, and the
    second replaces the first. *)
Theorem request_logs_collide q t u msg1 msg2 fs fs1 fs2 :
  mget msg1 "TXN" = u → mget msg2 "TXN" = t ++ "." ++ u →
  LogCommand true (q ++ "." ++ t) msg1 fs = Some fs1 → LogCommand true q msg2 fs1 = Some fs2 →
  fs1 !! log_path (q ++ "." ++ t) u "request" = Some msg1 ∧
  fs2 !! log_path (q ++ "." ++ t) u "request" = Some msg2.
Proof.
  intros H1 H2 E1 E2. injection E1 as <-. injection E2 as <-. rewrite H1, H2.
  assert (log_path q (t ++ "." ++ u) "request" = log_path (q ++ "." ++ t) u "request") as ->.
  { unfold log_path, log_dir. rewrite <- !string_app_assoc. reflexivity. }
  split; by rewrite lookup_insert_eq.
Qed.

Lemma request_logs_collide_witness :
  let msg1 := pkt [("TXN", "Login")] in
  let msg2 := pkt [("TXN", "B.Login")] in
  let fs1 := <[log_path ("A" ++ "." ++ "B") (mget msg1 "TXN") "request" := msg1]> (∅ : files) in
  let fs2 := <[log_path "A" (mget msg2 "TXN") "request" := msg2]> fs1 in
  fs1 !! log_path ("A" ++ "." ++ "B") "Login" "request" = Some msg1 ∧
  fs2 !! log_path ("A" ++ "." ++ "B") "Login" "request" = Some msg2.
Proof.
  intros msg1 msg2 fs1 fs2.
  apply (request_logs_collide "A" "B" "Login" msg1 msg2 ∅ fs1 fs2); reflexivity.
Defined.





(** ** GetStats answer *)

Lemma Itoa_nat i : Itoa (Z.of_nat i) = str_of_uint (N.to_uint (N.of_nat i)).
Proof. unfold Itoa. rewrite decide_False by lia. by rewrite <- nat_N_Z, N2Z.id. Qed.

Lemma str_of_uint_dot d d' s s' :
  str_of_uint d ++ String "."%char s = str_of_uint d' ++ String "."%char s' → d = d' ∧ s = s'.
Proof.
  revert d'. induction d; intros d'; destruct d'; simpl; intros H; try discriminate;
    injection H as H; try (by split);
    destruct (IHd _ H); subst; done.
Qed.

Lemma stats_key_inj i j s s' :
  "stats." ++ Itoa (Z.of_nat i) ++ String "."%char s =
  "stats." ++ Itoa (Z.of_nat j) ++ String "."%char s' → i = j ∧ s = s'.
Proof.
  intros E. apply (inj (String.append _)) in E. rewrite !Itoa_nat in E.
  apply str_of_uint_dot in E as [Ed ->]. split; [|done].
  apply DecimalN.Unsigned.to_uint_inj in Ed. lia.
Qed.

Lemma stats_key_not_count i s : "stats.[]" ≠ "stats." ++ Itoa (Z.of_nat i) ++ String "."%char s.
Proof.
  intros E. change "stats.[]" with ("stats." ++ "[]") in E.
  apply (inj (String.append _)) in E. rewrite Itoa_nat in E.
  destruct (N.to_uint (N.of_nat i)); discriminate.
Qed.

Lemma stats_rows_fold (rows : list (string * string * string * string)) (p : packet) (n : nat) :
  let r := foldl (fun '(p, count) row =>
           let '(_, _, statsKey, statsValue) := row in
           let i := Itoa count in
           (<["stats." ++ i ++ ".text" := statsValue]>
              (<["stats." ++ i ++ ".value" := statsValue]>
                 (<["stats." ++ i ++ ".key" := statsKey]> p)), (count + 1)%Z))
        (p, Z.of_nat n) rows in
  r.2 = Z.of_nat (n + length rows) ∧
  (∀ i u h k v, rows !! i = Some (u, h, k, v) →
     r.1 !! ("stats." ++ Itoa (Z.of_nat (n + i)) ++ ".key") = Some k ∧
     r.1 !! ("stats." ++ Itoa (Z.of_nat (n + i)) ++ ".value") = Some v ∧
     r.1 !! ("stats." ++ Itoa (Z.of_nat (n + i)) ++ ".text") = Some v) ∧
  (∀ K : string, (∀ (j : nat) (s : string), (n ≤ j)%nat → K ≠ "stats." ++ Itoa (Z.of_nat j) ++ String "."%char s) →
     r.1 !! K = p !! K).
Proof.
  revert p n. induction rows as [|[[[u h] k] v] rows IH]; intros p n; cbn [foldl];
    cbv zeta in *.
  - simpl. split; [lia|]. split; [|done]. intros i ? ? ? ? Hi. by rewrite lookup_nil in Hi.
  - replace (Z.of_nat n + 1)%Z with (Z.of_nat (S n)) by lia.
    destruct (IH (<["stats." ++ Itoa (Z.of_nat n) ++ ".text" := v]>
              (<["stats." ++ Itoa (Z.of_nat n) ++ ".value" := v]>
                 (<["stats." ++ Itoa (Z.of_nat n) ++ ".key" := k]> p))) (S n))
      as (Hc & Hr & Hf).
    split; [rewrite Hc; simpl; lia|]. split.
    + intros [|i] u' h' k' v' Hi.
      * injection Hi as <- <- <- <-. rewrite Nat.add_0_r.
        assert (∀ s, (∀ j s', (S n ≤ j)%nat →
                  "stats." ++ Itoa (Z.of_nat n) ++ String "."%char s ≠
                  "stats." ++ Itoa (Z.of_nat j) ++ String "."%char s')) as Hne.
        { intros s j s' Hj E. apply stats_key_inj in E as [-> _]. lia. }
        rewrite !Hf by apply Hne.
        rewrite lookup_insert_ne by (intros E; apply stats_key_inj in E as [_ E]; discriminate).
        rewrite lookup_insert_ne by (intros E; apply stats_key_inj in E as [_ E]; discriminate).
        rewrite lookup_insert_eq. split; [done|].
        rewrite lookup_insert_ne by (intros E; apply stats_key_inj in E as [_ E]; discriminate).
        rewrite lookup_insert_eq. split; [done|].
        by rewrite lookup_insert_eq.
      * simpl in Hi. replace (n + S i) with (S n + i) by lia. by apply Hr with u' h'.
    + intros K HK. rewrite Hf by (intros j s Hj; apply HK; lia).
      rewrite !lookup_insert_ne; try done;
        intros E; subst K; exact (HK n _ (le_n n) eq_refl).
Qed.

(** GetStats on an active session whose query succeeded answers one
    packet under the request's query name: [stats.[]] is the number of
    rows, row i gives [stats.i.key] (its key) and [stats.i.value] and
    [stats.i.text] (its value), and the packet names the transaction
    [GetStats], the requested owner and owner type 1. *)
Theorem GetStats_answer o query c msg w rows :
  IsActive c = true → o_stats o = Some rows →
  ∃ p, GetStats o query c msg w = Done w c [(query, p)] ∧
    mget p "stats.[]" = Itoa (Z.of_nat (length rows)) ∧
    mget p "TXN" = "GetStats" ∧ mget p "ownerId" = mget msg "owner" ∧
    mget p "ownerType" = "1" ∧
    (∀ i u h k v, rows !! i = Some (u, h, k, v) →
       mget p ("stats." ++ Itoa (Z.of_nat i) ++ ".key") = k ∧
       mget p ("stats." ++ Itoa (Z.of_nat i) ++ ".value") = v ∧
       mget p ("stats." ++ Itoa (Z.of_nat i) ++ ".text") = v).
Proof.
  intros Ha Hs. unfold GetStats. rewrite Ha, Hs. simpl.
  pose proof (stats_rows_fold rows
    (pkt [("TXN", "GetStats"); ("ownerId", mget msg "owner"); ("ownerType", "1")]) 0)
    as (Hc & Hr & Hf).
  unfold stats_rows. cbn [Z.of_nat] in *.
  destruct (foldl _ _ rows) as [p count]. simpl in *. subst count.
  eexists. split; [reflexivity|]. unfold mget. rewrite lookup_insert_eq. split; [done|].
  assert (∀ K, K ≠ "stats.[]" → (∀ j s, (0 ≤ j)%nat → K ≠ "stats." ++ Itoa (Z.of_nat j) ++ String "."%char s) →
     <["stats.[]" := Itoa (Z.of_nat (length rows))]> p !! K =
     pkt [("TXN", "GetStats"); ("ownerId", mget msg "owner"); ("ownerType", "1")] !! K) as Hk.
  { intros K H1 H2. rewrite lookup_insert_ne by done. by apply Hf. }
  split; [rewrite Hk; [done|done|intros j s _ E; discriminate]|].
  split; [rewrite Hk; [done|done|intros j s _ E; discriminate]|].
  split; [rewrite Hk; [done|done|intros j s _ E; discriminate]|].
  intros i u h k v Hi. destruct (Hr i u h k v Hi) as (H1 & H2 & H3).
  rewrite !lookup_insert_ne by (intros E; symmetry in E; by eapply stats_key_not_count).
  by rewrite H1, H2, H3.
Qed.

Lemma GetStats_answer_witness :
  let o := mkOracle true (fun _ => None) (fun _ => None)
             (Some [("u1", "h1", "kills", "12"); ("u1", "h1", "deaths", "3")]) 0 "" in
  let c := mkClient true false None "7" in
  let msg := pkt [("TXN", "GetStats"); ("owner", "99")] in
  let w := mkWorld globals0 ∅ [] in
  let rows := [("u1", "h1", "kills", "12"); ("u1", "h1", "deaths", "3")] in
  ∃ p, GetStats o "GetStats" c msg w = Done w c [("GetStats", p)] ∧
    mget p "stats.[]" = Itoa (Z.of_nat (length rows)) ∧
    mget p "TXN" = "GetStats" ∧ mget p "ownerId" = mget msg "owner" ∧
    mget p "ownerType" = "1" ∧
    (∀ i u h k v, rows !! i = Some (u, h, k, v) →
       mget p ("stats." ++ Itoa (Z.of_nat i) ++ ".key") = k ∧
       mget p ("stats." ++ Itoa (Z.of_nat i) ++ ".value") = v ∧
       mget p ("stats." ++ Itoa (Z.of_nat i) ++ ".text") = v).
Proof. intros o c msg w rows. apply (GetStats_answer o "GetStats" c msg w rows); reflexivity. Defined.
(** ** GetStats query arguments *)

Lemma map_seq_lookup {A} (f : nat → A) s n i :
  i < n → map f (seq s n) !! i = Some (f (s + i)).
Proof.
  revert s i. induction n as [|n IH]; intros s i Hi; [lia|].
  destruct i as [|i]; simpl; [by rewrite Nat.add_0_r|].
  rewrite IH by lia. do 2 f_equal. lia.
Qed.

(** The GetStats query gets the owner, the client's [uID] and then
    [keys.0] ... [keys.(n-1)] for the [keys.[]] count n; a negative count
    gives no key argument, and so does a missing [keys.[]] (Atoi fails and
    gives 0). *)
Theorem GetStats_args_keys c msg :
  (∀ n, (int_min <= n <= int_max)%Z → mget msg "keys.[]" = Itoa n →
     length (GetStats_args c msg) = 2 + Z.to_nat n ∧
     GetStats_args c msg !! 0 = Some (mget msg "owner") ∧
     GetStats_args c msg !! 1 = Some (uID c) ∧
     ∀ i, i < Z.to_nat n →
       GetStats_args c msg !! (2 + i) = Some (mget msg ("keys." ++ Itoa (Z.of_nat i)))) ∧
  (mget msg "keys.[]" = "" → GetStats_args c msg = [mget msg "owner"; uID c]).
Proof.
  split.
  - intros n Hn Hk. unfold GetStats_args. rewrite Hk, Atoi_Itoa_int by done.
    split; [by rewrite length_cons, length_cons, length_map, length_seq|].
    split; [done|]. split; [done|].
    intros i Hi. exact (map_seq_lookup _ 0 _ i Hi).
  - intros Hk. unfold GetStats_args. rewrite Hk. reflexivity.
Qed.

Lemma GetStats_args_keys_witness :
  let c := mkClient true false None "7" in
  let msg := pkt [("owner", "99"); ("keys.[]", "2"); ("keys.0", "kills"); ("keys.1", "deaths")] in
  (∀ n, (int_min <= n <= int_max)%Z → mget msg "keys.[]" = Itoa n →
     length (GetStats_args c msg) = 2 + Z.to_nat n ∧
     GetStats_args c msg !! 0 = Some (mget msg "owner") ∧
     GetStats_args c msg !! 1 = Some (uID c) ∧
     ∀ i, i < Z.to_nat n →
       GetStats_args c msg !! (2 + i) = Some (mget msg ("keys." ++ Itoa (Z.of_nat i)))) ∧
  (mget msg "keys.[]" = "" → GetStats_args c msg = [mget msg "owner"; uID c]).
Proof. intros c msg. apply (GetStats_args_keys c msg). Defined.

(** ** Arguments of the stats statement of the second UGAM draft *)

Lemma lookup_snoc2 {A} (l : list A) x y tail :
  (((l ++ [x]) ++ [y]) ++ tail)%list !! (length l + 1) = Some y.
Proof.
  rewrite <- !app_assoc. rewrite lookup_app_r by lia.
  by replace (length l + 1 - length l) with 1 by lia.
Qed.

(** The second UGAM draft's loop, whatever order it visits the
    message's entries in, counts the keys other than TID and appends, for
    each of them, the game id, the key and the value with quotes stripped.
    When [stmtUpdateGame] succeeds, the stats statement built for that
    count is executed with these arguments. *)
Theorem ugam2_stats_args o c msg w :
  (∀ gid l st, l ≡ₚ map_to_list msg →
     (ugam2_loop gid l st 0 []).1.2 = size (delete "TID" msg) ∧
     (ugam2_loop gid l st 0 []).2 =
       mjoin (map (fun kv : string * string => [gid; kv.1; strip_quotes kv.2])
                  (filter (fun kv : string * string => kv.1 ≠ "TID") l))) ∧
  (IsActive c = true → o_exec o 0 = None →
   ∃ w', UGAM2 o c msg w = Done w' c [] ∧
     durable w' !! (length (durable w) + 1) =
       Some (mkExec (stats_stmt (size (delete "TID" msg)))
               (mjoin (map (fun kv : string * string => [mget msg "GID"; kv.1; strip_quotes kv.2])
                           (filter (fun kv : string * string => kv.1 ≠ "TID") (map_to_list msg))))
               (bool_decide (o_exec o 1 = None)))).
Proof.
  split.
  - intros gid l st P. split.
    + rewrite (proj1 (ugam2_loop_counts gid l st 0 [])). simpl.
      by apply filter_not_TID_perm_length.
    + by rewrite ugam2_loop_args.
  - intros Ha H0. unfold UGAM2. rewrite Ha. simpl.
    pose proof (ugam2_loop_counts (mget msg "GID") (map_to_list msg) (redis w) 0 []) as [Hk _].
    pose proof (ugam2_loop_args (mget msg "GID") (map_to_list msg) (redis w) 0 []) as Hargs.
    rewrite filter_not_TID_length in Hk.
    destruct (ugam2_loop _ _ _ _ _) as [[st keys] args].
    simpl in Hk, Hargs. subst keys args. rewrite H0.
    destruct (o_exec o 1) as [err|] eqn:E1; [case_decide|];
      (eexists; split; [reflexivity|]); simpl; try rewrite E1.
    + apply (lookup_snoc2 _ _ _ [_]).
    + rewrite <- (app_nil_r (_ ++ [_])%list). apply (lookup_snoc2 _ _ _ []).
    + rewrite <- (app_nil_r (_ ++ [_])%list). apply (lookup_snoc2 _ _ _ []).
Qed.

Lemma ugam2_stats_args_witness :
  let o := mkOracle true (fun _ => None) (fun _ => None) None 0 "s1" in
  let c := mkClient true true None "" in
  let msg := pkt [("TID", "3"); ("GID", "12"); ("B-U-map", "no_vehicles")] in
  let w := mkWorld globals0 ∅ [] in
  let l := [("B-U-map", "no_vehicles"); ("TID", "3"); ("GID", "12")] in
  ((ugam2_loop "12" l ∅ 0 []).1.2 = size (delete "TID" msg) ∧
   (ugam2_loop "12" l ∅ 0 []).2 =
     mjoin (map (fun kv : string * string => ["12"; kv.1; strip_quotes kv.2])
                (filter (fun kv : string * string => kv.1 ≠ "TID") l))) ∧
  (∃ w', UGAM2 o c msg w = Done w' c [] ∧
     durable w' !! (length (durable w) + 1) =
       Some (mkExec (stats_stmt (size (delete "TID" msg)))
               (mjoin (map (fun kv : string * string => [mget msg "GID"; kv.1; strip_quotes kv.2])
                           (filter (fun kv : string * string => kv.1 ≠ "TID") (map_to_list msg))))
               (bool_decide (o_exec o 1 = None)))).
Proof.
  intros o c msg w l. destruct (ugam2_stats_args o c msg w) as [H1 H2].
  split; [apply H1; vm_compute; apply (bool_decide_unpack _); vm_compute; reflexivity|].
  apply H2; reflexivity.
Defined.

(** ** Session flags and timers *)

(** Only UGAM (first draft) on an active session marks it as a server;
    no handler changes the session's address or user id. *)
Theorem handle_server_flag cmd o c msg w :
  IsServer (client_of (handle cmd o c msg w)) =
    (IsServer c || match cmd with cUGAM => IsActive c | _ => false end) ∧
  IpAddr (client_of (handle cmd o c msg w)) = IpAddr c ∧
  uID (client_of (handle cmd o c msg w)) = uID c.
Proof.
  destruct c as [[] [] ip u]; destruct cmd; simpl; unfold_handlers;
    repeat (case_match; simpl); auto.
Qed.

Lemma sys_step_leave_false S e S' :
  wantsToLeaveQueue (globals (sys_world S)) = false →
  sys_step S e = Some S' → wantsToLeaveQueue (globals (sys_world S')) = false.
Proof.
  intros Hl Hs. destruct e as [s c|s cmd o msg|s|s|s]; simpl in Hs.
  - by injection Hs as <-.
  - destruct (theater_cmd cmd); simpl in Hs; [|by injection Hs as <-].
    destruct (sys_clients S !! s) as [c|]; [|by injection Hs as <-].
    assert (cmd = cEGAM ∨ cmd ≠ cEGAM) as [->|Hne]
      by (destruct cmd; (left; done) || (right; congruence)).
    + simpl in Hs. unfold EGAM in Hs.
      repeat (case_match; simplify_eq/=); done.
    + pose proof (handle_globals cmd o c msg (sys_world S) Hne) as Hg.
      destruct (handle cmd o c msg (sys_world S)); simplify_eq/=; by rewrite Hg.
  - destruct (sys_clients S !! s); [case_decide|]; by injection Hs as <-.
  - destruct (sys_clients S !! s) as [c|]; [case_decide|]; [|by injection Hs as <-..].
    destruct (join_tick c (globals (sys_world S))) as [g out] eqn:E.
    injection Hs as <-. simpl. unfold join_tick in E.
    repeat (case_match; simplify_eq/=); done.
  - destruct (sys_clients S !! s); by injection Hs as <-.
Qed.

Lemma sys_run_leave_false S tr S' :
  wantsToLeaveQueue (globals (sys_world S)) = false →
  sys_run S tr = Some S' → wantsToLeaveQueue (globals (sys_world S')) = false.
Proof.
  revert S. induction tr as [|e tr IH]; intros S Hl Hr; simpl in Hr.
  - by injection Hr as <-.
  - destruct (sys_step S e) as [S1|] eqn:E; [|done].
    eapply IH; [|exact Hr]. by eapply sys_step_leave_false.
Qed.

(** No code sets [wantsToLeaveQueue] (the ECNL assignment is commented
    out): in every run of a theater it stays false, so the leave-queue
    branch of the join ticker never runs. *)
Theorem leave_queue_never_set tr S :
  sys_run sys0 tr = Some S → wantsToLeaveQueue (globals (sys_world S)) = false.
Proof. apply sys_run_leave_false. reflexivity. Qed.

Lemma leave_queue_never_set_witness :
  let c := mkClient true false (Some "10.0.0.3") "" in
  let o := mkOracle true (fun _ => Some ("7", "Bob")) (fun _ => None) None 0 "" in
  let tr := [EvConnect 1 c; EvCmd 1 cECNL o (pkt [("TID", "4"); ("LID", "1")]);
             EvCmd 1 cEGAM o (pkt [("TID", "5")]); EvJoinTick 1] in
  sys_run sys0 tr = Some (default sys0 (sys_run sys0 tr)) ∧
  wantsToLeaveQueue (globals (sys_world (default sys0 (sys_run sys0 tr)))) = false.
Proof.
  intros c o tr. split; [vm_compute; reflexivity|].
  apply (leave_queue_never_set tr). vm_compute; reflexivity.
Defined.

 (** ** The join handshake between a client and a server session *)

(** A client's EGAM, then a tick of a server session, then two ticks of
    the client: the server sends EGRQ, the client's next tick sends
    EGEG carrying the player id looked up by EGAM and clears [canJoin],
    and the tick after that sends nothing. *)
Theorem join_handshake S s1 s2 c1 c2 o msg p n :
  s1 ≠ s2 →
  sys_clients S !! s1 = Some c1 → IsActive c1 = true → IsServer c1 = false →
  sys_clients S !! s2 = Some c2 → IsActive c2 = true → IsServer c2 = true →
  s1 ∈ sys_timers S → s2 ∈ sys_timers S →
  o_prepare_ok o = true → o_lookup o (mget msg "R-U-accid") = Some (p, n) →
  ∃ S' g, sys_run S [EvCmd s1 cEGAM o msg; EvJoinTick s2; EvJoinTick s1; EvJoinTick s1] = Some S' ∧
    sys_out S' = (sys_out S ++
      [(s1, ("EGAM", pkt [("TID", mget msg "TID"); ("GID", "5459"); ("LID", "1")]));
       (s2, ("EGRQ", egrq_packet g)); (s1, ("EGEG", egeg_packet g))])%list ∧
    userId g = mget msg "R-U-accid" ∧ nickname g = n ∧ pid g = p ∧
    canJoin (globals (sys_world S')) = false.
Proof.
  intros Hne Hc1 Ha1 Hs1 Hc2 Ha2 Hs2 Ht1 Ht2 Hpo Hlk.
  cbn [sys_run sys_step handle theater_cmd negb]. rewrite Hc1. unfold EGAM.
  rewrite Ha1, Hpo, Hlk. cbn -[egrq_packet egeg_packet pkt].
  rewrite lookup_insert_ne, Hc2 by done. rewrite decide_True by done.
  unfold join_tick. rewrite Ha2, Hs2.
  destruct (wantsToLeaveQueue (globals (sys_world S))) eqn:Hwl;
  repeat first [rewrite lookup_insert_eq | rewrite decide_True by done | rewrite Ha1
               | rewrite Hs1 | progress cbn -[egrq_packet egeg_packet pkt]];
  (eexists _, (mkGlobals true false false (mget msg "R-INT-PORT") (mget msg "PORT")
                 (mget msg "R-INT-IP") (mget msg "R-U-externalIp") (mget msg "R-U-accid") n p);
   split; [reflexivity|]);
  cbn [sys_out sys_world globals set_globals set_flags canJoin userId nickname pid];
  (split; [by rewrite <- !app_assoc|]); auto.
Qed.

Lemma join_handshake_witness :
  let c1 := mkClient true false (Some "10.0.0.3") "" in
  let c2 := mkClient true true (Some "10.0.0.1") "" in
  let o := mkOracle true (fun _ => Some ("42", "Bob")) (fun _ => None) None 0 "" in
  let msg := pkt [("TID", "5"); ("R-U-accid", "7")] in
  let S := default sys0 (sys_run sys0 [EvConnect 0 c1; EvConnect 1 c2]) in
  ∃ S' g, sys_run S [EvCmd 0 cEGAM o msg; EvJoinTick 1; EvJoinTick 0; EvJoinTick 0] = Some S' ∧
    sys_out S' = (sys_out S ++
      [(0, ("EGAM", pkt [("TID", mget msg "TID"); ("GID", "5459"); ("LID", "1")]));
       (1, ("EGRQ", egrq_packet g)); (0, ("EGEG", egeg_packet g))])%list ∧
    userId g = mget msg "R-U-accid" ∧ nickname g = "Bob" ∧ pid g = "42" ∧
    canJoin (globals (sys_world S')) = false.
Proof.
  intros c1 c2 o msg S.
  apply (join_handshake S 0 1 c1 c2 o msg "42" "Bob");
    first [discriminate | apply bool_decide_unpack; vm_compute; reflexivity
          | vm_compute; reflexivity].
Defined.

(** ** What the handlers leave alone *)

(** Handlers routed by [run] never execute a write statement ([Exec]) on
    the database (EGAM only queries it, with [Prepare] and [QueryRow]);
    apart from CGAM, UGAM and the second UGAM draft no handler writes the
    shared store. *)
Theorem handle_frame cmd o c msg w :
  (theater_cmd cmd = true → durable (world_of (handle cmd o c msg w)) = durable w) ∧
  (match cmd with cCGAM | cUGAM | cUGAM2 => false | _ => true end = true →
   redis (world_of (handle cmd o c msg w)) = redis w).
Proof.
  split; intros Hc; destruct cmd; try discriminate; simpl; unfold_handlers;
    repeat (case_match; simpl); reflexivity.
Qed.

Lemma handle_frame_witness :
  let o := mkOracle true (fun _ => Some ("42", "Bob")) (fun _ => None) None 0 "" in
  let c := mkClient true false (Some "10.0.0.3") "" in
  let w := mkWorld globals0 (theater_new ∅) [] in
  let msg := pkt [("TID", "5"); ("R-U-accid", "7")] in
  durable (world_of (handle cEGAM o c msg w)) = durable w ∧
  redis (world_of (handle cEGAM o c msg w)) = redis w.
Proof.
  intros o c w msg. destruct (handle_frame cEGAM o c msg w) as [H1 H2].
  split; [apply H1|apply H2]; reflexivity.
Defined.
